(** * Lab_1: the pizza-delivery controller [ASimpleAIController]

    A shallow embedding of [Lab_1/Source/Lab_1/SimpleAIController.cpp]:
    the constructor and the per-frame [Tick] of the delivery agent, together
    with the properties of its order selection and of its two-phase
    (idle / delivering) state machine.

    Conventions of the embedding.
    - C++ [float] is IEEE-754 binary32; it is [spec_float] with precision 24
      and exponent bound 128, so comparisons with NaN, signed zeros and the
      rounding of [-] and [/] are those of the standard, every operation
      being rounded to single precision.
    - C++ [int] values ([OrderNumber], [HouseNumber], [terribleStatus],
      the pizza amount) are [Z]; the controller performs no arithmetic on
      them, so no wrap-around arises.  Loop indices are [nat].
    - [TArray::operator[]] is a checked access: an index out of range is
      the error result [None], and so is the use of a member that was never
      assigned.
    - The methods inherited from the base controller (world queries and
      actions) are not part of the translated file; they are the fields of
      the interface [BaseAIController].  A tick threads the world through
      the actions it issues and records them.
    - [UE_LOG] lines have no effect on the state and are left out. *)

From Stdlib Require Import ZArith List Bool Lia.
From Stdlib Require Import Floats.SpecFloat.
Import ListNotations.
Open Scope Z_scope.

(** ** C++ [float] *)

Definition float : Type := spec_float.

Definition f32_prec : Z := 24.
Definition f32_emax : Z := 128.

(** The value of an integer-valued literal such as [300.0f]. *)
Definition f32_of_Z (z : Z) : float := binary_normalize f32_prec f32_emax z 0 false.

Definition f32_ltb (x y : float) : bool := SFltb x y.
Definition f32_eqb (x y : float) : bool := SFeqb x y.
Definition f32_sub (x y : float) : float := SFsub f32_prec f32_emax x y.
Definition f32_div (x y : float) : float := SFdiv f32_prec f32_emax x y.

Declare Scope float32_scope.
Delimit Scope float32_scope with f32.
Infix "<?" := f32_ltb : float32_scope.
Infix "==?" := f32_eqb (at level 70) : float32_scope.
Infix "-" := f32_sub : float32_scope.
Infix "/" := f32_div : float32_scope.

(** ** Engine and game types used by the controller *)

(** [FVector]: three [float] coordinates.  The controller only stores and
    forwards such points. *)
Record FVector : Type := mkFVector { vX : float; vY : float; vZ : float }.

Record FPizzaOrder : Type := mkOrder { OrderNumber : Z; HouseNumber : Z }.

(** [TArray<T>::operator[]] with an [int] index. *)
Definition index {A : Type} (arr : list A) (i : Z) : option A :=
  if i <? 0 then None else nth_error arr (Z.to_nat i).

(** The calls that act on the world, in the order a tick issues them. *)
Inductive Call : Type :=
| CallSetNewMoveDestination (Destination : FVector)
| CallTryGrabPizza
| CallTryDeliverPizza (OrderNumber : Z).

(** The inherited methods of the base controller.  Queries read the world;
    the three actions return the world they leave behind.
    [GetHouseTimeLeft] is partial: the deadlines are a mapping keyed by
    house number, and a house number outside of it is an error like an array
    index out of range. *)
Class BaseAIController (World : Type) : Type := {
  GetPizzaOrders : World -> list FPizzaOrder;
  GetHouseLocations : World -> list FVector;
  GetDistanceToDestination : World -> FVector -> float;
  GetHouseTimeLeft : World -> Z -> option float;
  GetCharacterMaxSpeed : World -> float;
  GetPizzaAmount : World -> Z;
  WaitsHousePizzaDelivery : World -> Z -> bool;
  TryGrabPizza : World -> bool * World;
  TryDeliverPizza : Z -> World -> bool * World;
  SetNewMoveDestination : FVector -> World -> World
}.

(** ** The controller's own fields *)

(** [CurrentDestination] is a plain [FVector] member that the constructor
    leaves unassigned; [None] stands for "never assigned". *)
Record Controller : Type := mkController {
  bDeliveringOrder : bool;
  CurrentOrderNumber : Z;
  CurrentDestination : option FVector;
  terribleStatus : Z
}.

(** [ASimpleAIController::ASimpleAIController()] *)
Definition ASimpleAIController : Controller :=
  {| bDeliveringOrder := false;
     CurrentOrderNumber := -1;
     CurrentDestination := None;
     terribleStatus := 0 |}.

Definition set_terribleStatus (v : Z) (c : Controller) : Controller :=
  {| bDeliveringOrder := bDeliveringOrder c;
     CurrentOrderNumber := CurrentOrderNumber c;
     CurrentDestination := CurrentDestination c;
     terribleStatus := v |}.

(** Readings of the fields in the vocabulary of the specification. *)
Definition Normal : Z := 0.
Definition Flagged : Z := 1.
Definition Committed : Z := 2.

Definition EnRoute (c : Controller) : Prop := bDeliveringOrder c = true.
Definition Idle (c : Controller) : Prop := bDeliveringOrder c = false.
Definition activeOrder_set (c : Controller) : Prop := CurrentOrderNumber c <> -1.
Definition destination_set (c : Controller) : Prop := CurrentDestination c <> None.

Notation "x <- e ;; k" :=
  (match e with Some x => k | None => None end)
  (at level 61, e at next level, right associativity, only parsing).
Notation "' pat <- e ;; k" :=
  (match e with Some pat => k | None => None end)
  (at level 61, pat pattern, e at next level, right associativity, only parsing).

(** ** [ASimpleAIController::Tick] *)

Section Tick.

Context {World : Type} {base : BaseAIController World}.

Local Open Scope float32_scope.

(** What one call of [Tick] leaves behind: the controller's fields, the
    world, and the actions issued (oldest first). *)
Definition Outcome : Type := (Controller * World * list Call)%type.

(** Lines 56-62, the loop that looks for the closest house; [rest] holds
    the orders from index [i] on. *)
Fixpoint closest_loop (w : World) (HouseLocations : list FVector)
    (rest : list FPizzaOrder) (i : nat)
    (closestOrder : nat) (closestDistance : float) : option (nat * float) :=
  match rest with
  | [] => Some (closestOrder, closestDistance)
  | o :: rest' =>
      p <- index HouseLocations (HouseNumber o) ;;
      let currentDistance := GetDistanceToDestination w p in
      if currentDistance <? closestDistance
      then closest_loop w HouseLocations rest' (S i) i currentDistance
      else closest_loop w HouseLocations rest' (S i) closestOrder closestDistance
  end.

(** Lines 66-72, the loop that looks for the house whose pizza burns
    first. *)
Fixpoint terrible_loop (w : World)
    (rest : list FPizzaOrder) (i : nat)
    (terribleOrder : nat) (burnestTime : float) : option (nat * float) :=
  match rest with
  | [] => Some (terribleOrder, burnestTime)
  | o :: rest' =>
      currentTime <- GetHouseTimeLeft w (HouseNumber o) ;;
      if currentTime <? burnestTime
      then terrible_loop w rest' (S i) i currentTime
      else terrible_loop w rest' (S i) terribleOrder burnestTime
  end.

(** Lines 33-37, the loop run after a delivery: [Some true] when it leaves
    through [break], having found a waiting house at exactly [Distance].
    The [&&] looks the house up only if it waits. *)
Fixpoint rescan_loop (w : World) (HouseLocations : list FVector)
    (rest : list FPizzaOrder) (Distance : float) : option bool :=
  match rest with
  | [] => Some false
  | o :: rest' =>
      if WaitsHousePizzaDelivery w (HouseNumber o) then
        p <- index HouseLocations (HouseNumber o) ;;
        if Distance ==? GetDistanceToDestination w p
        then Some true
        else rescan_loop w HouseLocations rest' Distance
      else rescan_loop w HouseLocations rest' Distance
  end.

(** Lines 54-62: the first loop, started at order 0. *)
Definition closestOrder_of (w : World) (HouseLocations : list FVector)
    (Orders : list FPizzaOrder) : option (nat * float) :=
  o0 <- nth_error Orders 0 ;;
  p0 <- index HouseLocations (HouseNumber o0) ;;
  closest_loop w HouseLocations Orders 0 0 (GetDistanceToDestination w p0).

(** Lines 64-72: the second loop, started at order 0. *)
Definition terribleOrder_of (w : World) (Orders : list FPizzaOrder)
    : option (nat * float) :=
  o0 <- nth_error Orders 0 ;;
  t0 <- GetHouseTimeLeft w (HouseNumber o0) ;;
  terrible_loop w Orders 0 0 t0.

(** Line 76, left operand of [&&]: the test that makes the controller
    prefer the burning order. *)
Definition burning (w : World) (burnestTime : float) (p : FVector) : bool :=
  burnestTime - GetDistanceToDestination w p / GetCharacterMaxSpeed w
    <? f32_of_Z 5.

(** Lines 54-79, the choice of the order to serve: the order and the new
    value of [terribleStatus]. *)
Definition SelectOrder (status : Z) (w : World)
    (HouseLocations : list FVector) (Orders : list FPizzaOrder)
    : option (FPizzaOrder * Z) :=
  '(closestOrder, closestDistance) <- closestOrder_of w HouseLocations Orders ;;
  '(terribleOrder, burnestTime) <- terribleOrder_of w Orders ;;
  Order <- nth_error Orders closestOrder ;;
  urgent <- nth_error Orders terribleOrder ;;
  p <- index HouseLocations (HouseNumber urgent) ;;
  if burning w burnestTime p && negb (status =? 2)
  then Some (urgent, 1)
  else Some (Order, status).

(** Lines 90-94: take [Order]. *)
Definition TakeOrder (c : Controller) (w : World) (calls : list Call)
    (HouseLocations : list FVector) (Order : FPizzaOrder) : option Outcome :=
  HouseLocation <- index HouseLocations (HouseNumber Order) ;;
  Some ({| bDeliveringOrder := true;
           CurrentOrderNumber := OrderNumber Order;
           CurrentDestination := Some HouseLocation;
           terribleStatus := terribleStatus c |},
        SetNewMoveDestination HouseLocation w,
        calls ++ [CallSetNewMoveDestination HouseLocation]).

(** Lines 21-23:
    [if (terribleStatus == 1 && Distance < 300.0f) terribleStatus = 2;] *)
Definition lock_urgency (Distance : float) (c : Controller) : Controller :=
  if (terribleStatus c =? 1) && (Distance <? f32_of_Z 300)
  then set_terribleStatus 2 c else c.

(** Lines 15-43, the branch [if (bDeliveringOrder)]. *)
Definition TickDelivering (c : Controller) (w : World) : option Outcome :=
  Destination <- CurrentDestination c ;;
  let Distance := GetDistanceToDestination w Destination in
  if f32_of_Z 300 <? Distance then
    Some (c, SetNewMoveDestination Destination w,
          [CallSetNewMoveDestination Destination])
  else
    let c := lock_urgency Distance c in
    let '(bDeliveredOrder, w) := TryDeliverPizza (CurrentOrderNumber c) w in
    let calls := [CallTryDeliverPizza (CurrentOrderNumber c)] in
    if bDeliveredOrder then
      let c := {| bDeliveringOrder := false;
                  CurrentOrderNumber := -1;
                  CurrentDestination := CurrentDestination c;
                  terribleStatus := 0 |} in
      let Orders := GetPizzaOrders w in
      let HouseLocations := GetHouseLocations w in
      found <- rescan_loop w HouseLocations Orders Distance ;;
      Some (if found : bool then set_terribleStatus 2 c else c, w, calls)
    else
      Some (c, SetNewMoveDestination Destination w,
            calls ++ [CallSetNewMoveDestination Destination]).

(** Lines 45-95, the rest of [Tick], run when no order is being
    delivered. *)
Definition TickIdle (c : Controller) (w : World) : option Outcome :=
  let Orders := GetPizzaOrders w in
  if (length Orders =? 0)%nat then Some (c, w, [])
  else
    let HouseLocations := GetHouseLocations w in
    '(Order, status) <- SelectOrder (terribleStatus c) w HouseLocations Orders ;;
    let c := set_terribleStatus status c in
    if GetPizzaAmount w =? 0 then
      let '(bGrabbedPizza, w) := TryGrabPizza w in
      if negb bGrabbedPizza then Some (c, w, [CallTryGrabPizza])
      else TakeOrder c w [CallTryGrabPizza] HouseLocations Order
    else TakeOrder c w [] HouseLocations Order.

Definition Tick (c : Controller) (w : World) : option Outcome :=
  if bDeliveringOrder c then TickDelivering c w else TickIdle c w.

End Tick.

(** ** Vocabulary of the properties

    Both loops of the idle branch are the same search over a list of keys
    (a distance, a time left); [scan_min] is that search, and the facts
    about it carry over to both. *)

Section Search.

Local Open Scope float32_scope.

Fixpoint scan_min (keys : list (option float)) (i best : nat) (bestKey : float)
    : option (nat * float) :=
  match keys with
  | [] => Some (best, bestKey)
  | None :: _ => None
  | Some k :: keys' =>
      if k <? bestKey then scan_min keys' (S i) i k
      else scan_min keys' (S i) best bestKey
  end.

(** A search started the way [Tick] starts its two loops: from index 0 with
    the key of the first order. *)
Definition first_min (key : FPizzaOrder -> option float)
    (Orders : list FPizzaOrder) : option (nat * float) :=
  match Orders with
  | [] => None
  | o0 :: _ =>
      match key o0 with
      | None => None
      | Some k0 => scan_min (map key Orders) 0 0 k0
      end
  end.

End Search.

Section Vocabulary.

Context {World : Type} {base : BaseAIController World}.

Local Open Scope float32_scope.

(** The key the first loop compares: the distance to the order's house. *)
Definition distance_of (w : World) (HouseLocations : list FVector)
    (o : FPizzaOrder) : option float :=
  option_map (GetDistanceToDestination w) (index HouseLocations (HouseNumber o)).

(** The key the second loop compares: the time left at the order's house. *)
Definition timeLeft_of (w : World) (o : FPizzaOrder) : option float :=
  GetHouseTimeLeft w (HouseNumber o).

(** The house test of the loop that follows a delivery. *)
Definition colocated (w : World) (HouseLocations : list FVector)
    (Distance : float) (o : FPizzaOrder) : bool :=
  WaitsHousePizzaDelivery w (HouseNumber o) &&
  match index HouseLocations (HouseNumber o) with
  | Some p => Distance ==? GetDistanceToDestination w p
  | None => false
  end.

(** Every pending order names a house of the location table and of the
    deadline mapping. *)
Definition valid_houses (w : World) : Prop :=
  Forall (fun o => index (GetHouseLocations w) (HouseNumber o) <> None /\
                   GetHouseTimeLeft w (HouseNumber o) <> None)
         (GetPizzaOrders w).

(** No pending order carries the number the controller uses for "no order". *)
Definition numbered (w : World) : Prop :=
  Forall (fun o => OrderNumber o <> -1) (GetPizzaOrders w).

(** The states the controller can be in: those the constructor and a
    sequence of ticks lead to, each tick in a world of its own; [ok] says
    which worlds a tick may meet in which state. *)
Inductive reachable_when (ok : Controller -> World -> Prop) : Controller -> Prop :=
| reach_constructor : reachable_when ok ASimpleAIController
| reach_Tick c w c' w' calls :
    reachable_when ok c -> ok c w -> Tick c w = Some (c', w', calls) ->
    reachable_when ok c'.

Definition reachable : Controller -> Prop := reachable_when (fun _ _ => True).

(** Ticks in worlds without an order numbered -1. *)
Definition numbered_tick (c : Controller) (w : World) : Prop := numbered w.

(** Ticks in which the pizza, when the idle controller has to grab one for
    a pending order, is grabbed. *)
Definition pickup_succeeds (c : Controller) (w : World) : Prop :=
  Idle c -> GetPizzaOrders w <> [] -> GetPizzaAmount w = 0 ->
  fst (TryGrabPizza w) = true.

(** The ways through [Tick], one constructor for each [return] that is
    reached without a failed array access. *)
Inductive Tick_path (c : Controller) (w : World) : Outcome -> Prop :=
| path_far d :
    bDeliveringOrder c = true -> CurrentDestination c = Some d ->
    (f32_of_Z 300 <? GetDistanceToDestination w d) = true ->
    Tick_path c w (c, SetNewMoveDestination d w, [CallSetNewMoveDestination d])
| path_retry d w1 :
    bDeliveringOrder c = true -> CurrentDestination c = Some d ->
    (f32_of_Z 300 <? GetDistanceToDestination w d) = false ->
    TryDeliverPizza (CurrentOrderNumber c) w = (false, w1) ->
    Tick_path c w
      (lock_urgency (GetDistanceToDestination w d) c,
       SetNewMoveDestination d w1,
       [CallTryDeliverPizza (CurrentOrderNumber c); CallSetNewMoveDestination d])
| path_delivered d w1 found :
    bDeliveringOrder c = true -> CurrentDestination c = Some d ->
    (f32_of_Z 300 <? GetDistanceToDestination w d) = false ->
    TryDeliverPizza (CurrentOrderNumber c) w = (true, w1) ->
    rescan_loop w1 (GetHouseLocations w1) (GetPizzaOrders w1)
      (GetDistanceToDestination w d) = Some found ->
    Tick_path c w
      ({| bDeliveringOrder := false;
          CurrentOrderNumber := -1;
          CurrentDestination := Some d;
          terribleStatus := if found then 2 else 0 |},
       w1, [CallTryDeliverPizza (CurrentOrderNumber c)])
| path_no_orders :
    bDeliveringOrder c = false -> GetPizzaOrders w = [] ->
    Tick_path c w (c, w, [])
| path_no_pizza Order status w1 :
    bDeliveringOrder c = false -> GetPizzaOrders w <> [] ->
    SelectOrder (terribleStatus c) w (GetHouseLocations w) (GetPizzaOrders w)
      = Some (Order, status) ->
    GetPizzaAmount w = 0 -> TryGrabPizza w = (false, w1) ->
    Tick_path c w (set_terribleStatus status c, w1, [CallTryGrabPizza])
| path_grabbed Order status w1 p :
    bDeliveringOrder c = false -> GetPizzaOrders w <> [] ->
    SelectOrder (terribleStatus c) w (GetHouseLocations w) (GetPizzaOrders w)
      = Some (Order, status) ->
    GetPizzaAmount w = 0 -> TryGrabPizza w = (true, w1) ->
    index (GetHouseLocations w) (HouseNumber Order) = Some p ->
    Tick_path c w
      ({| bDeliveringOrder := true;
          CurrentOrderNumber := OrderNumber Order;
          CurrentDestination := Some p;
          terribleStatus := status |},
       SetNewMoveDestination p w1,
       [CallTryGrabPizza; CallSetNewMoveDestination p])
| path_loaded Order status p :
    bDeliveringOrder c = false -> GetPizzaOrders w <> [] ->
    SelectOrder (terribleStatus c) w (GetHouseLocations w) (GetPizzaOrders w)
      = Some (Order, status) ->
    GetPizzaAmount w <> 0 ->
    index (GetHouseLocations w) (HouseNumber Order) = Some p ->
    Tick_path c w
      ({| bDeliveringOrder := true;
          CurrentOrderNumber := OrderNumber Order;
          CurrentDestination := Some p;
          terribleStatus := status |},
       SetNewMoveDestination p w,
       [CallSetNewMoveDestination p]).

(** [c'] serves order [o]: if a delivery is under way, it is the delivery of
    [o] to its house. *)
Definition serves (c' : Controller) (w : World) (o : FPizzaOrder) : Prop :=
  EnRoute c' ->
  CurrentOrderNumber c' = OrderNumber o /\
  CurrentDestination c' = index (GetHouseLocations w) (HouseNumber o).

(** The rule of the idle branch that relates the state [c'] after a tick to
    the state [c] before it: with [ot] the order that burns first, [bt] its
    time left and [oc] the closest order, a burning [ot] is served and the
    urgency becomes Flagged unless it is Committed; otherwise [oc] is served
    and the urgency becomes [otherwise] of its old value. *)
Definition escalation (otherwise : Z -> Z)
    (c : Controller) (w : World) (c' : Controller) : Prop :=
  forall ci cd ti bt oc ot pt,
    closestOrder_of w (GetHouseLocations w) (GetPizzaOrders w) = Some (ci, cd) ->
    terribleOrder_of w (GetPizzaOrders w) = Some (ti, bt) ->
    nth_error (GetPizzaOrders w) ci = Some oc ->
    nth_error (GetPizzaOrders w) ti = Some ot ->
    index (GetHouseLocations w) (HouseNumber ot) = Some pt ->
    if burning w bt pt && negb (terribleStatus c =? Committed)
    then terribleStatus c' = Flagged /\ serves c' w ot
    else terribleStatus c' = otherwise (terribleStatus c) /\ serves c' w oc.

(** The three values of [terribleStatus]. *)
Definition urgency_level (s : Z) : Prop :=
  s = Normal \/ s = Flagged \/ s = Committed.

(** The relation between the phase, the order number and the destination
    that the ticks maintain. *)
Definition phase_invariant (c : Controller) : Prop :=
  (activeOrder_set c <-> EnRoute c) /\ (EnRoute c -> destination_set c).

(** The relation between the phase and the urgency: Flagged only during a
    delivery; Normal or Committed while idle. *)
Definition urgency_invariant (c : Controller) : Prop :=
  urgency_level (terribleStatus c) /\
  (terribleStatus c = Flagged -> EnRoute c) /\
  (Idle c -> terribleStatus c = Normal \/ terribleStatus c = Committed).



(** The houses the loop after a delivery looks up are in the table. *)
Definition waiting_houses_valid (w : World) : Prop :=
  Forall (fun o => WaitsHousePizzaDelivery w (HouseNumber o) = true ->
                   index (GetHouseLocations w) (HouseNumber o) <> None)
         (GetPizzaOrders w).

(** The sequences of actions one tick may issue. *)
Definition tick_calls (calls : list Call) : Prop :=
  match calls with
  | [] => True
  | [_] => True
  | [CallTryGrabPizza; CallSetNewMoveDestination _] => True
  | [CallTryDeliverPizza _; CallSetNewMoveDestination _] => True
  | _ => False
  end.

End Vocabulary.

(** ** A small world to run the controller in

    The pawn stands at the origin and the houses lie on the positive X axis,
    so the distance to a point is its X coordinate.  A house waits for a
    pizza while an order for it is pending.  Deliveries and pizza grabs
    succeed or fail as the two flags say; a successful delivery removes the
    order from the pending list. *)

Record TestWorld : Type := mkTestWorld {
  twOrders : list FPizzaOrder;
  twHouseLocations : list FVector;
  twHouseTimeLeft : list float;
  twMaxSpeed : float;
  twPizzaAmount : Z;
  twCanGrab : bool;
  twCanDeliver : bool
}.

Definition twWaits (w : TestWorld) (house : Z) : bool :=
  existsb (fun o => HouseNumber o =? house) (twOrders w).

Definition twGrab (w : TestWorld) : bool * TestWorld :=
  if twCanGrab w
  then (true, mkTestWorld (twOrders w) (twHouseLocations w) (twHouseTimeLeft w)
                (twMaxSpeed w) (twPizzaAmount w + 1) (twCanGrab w) (twCanDeliver w))
  else (false, w).

Definition twDeliver (n : Z) (w : TestWorld) : bool * TestWorld :=
  if twCanDeliver w
  then (true, mkTestWorld (filter (fun o => negb (OrderNumber o =? n)) (twOrders w))
                (twHouseLocations w) (twHouseTimeLeft w)
                (twMaxSpeed w) (twPizzaAmount w - 1) (twCanGrab w) (twCanDeliver w))
  else (false, w).

#[export] Instance TestWorld_base : BaseAIController TestWorld := {|
  GetPizzaOrders := twOrders;
  GetHouseLocations := twHouseLocations;
  GetDistanceToDestination := fun _ p => vX p;
  GetHouseTimeLeft := fun w house => index (twHouseTimeLeft w) house;
  GetCharacterMaxSpeed := twMaxSpeed;
  GetPizzaAmount := twPizzaAmount;
  WaitsHousePizzaDelivery := twWaits;
  TryGrabPizza := twGrab;
  TryDeliverPizza := twDeliver;
  SetNewMoveDestination := fun _ w => w
|}.

(** A house on the X axis, [x] units away. *)
Definition house_at (x : Z) : FVector :=
  mkFVector (f32_of_Z x) (f32_of_Z 0) (f32_of_Z 0).


(** A street of three houses: houses 0 and 1 in one building 100 away,
    house 2 at 200. *)
Definition street : list FVector := [house_at 100; house_at 100; house_at 200].

(** Orders 7 and 8 for the two houses of the building, nothing burning, one
    pizza in hand. *)
Definition world_twins : TestWorld :=
  mkTestWorld [mkOrder 7 0; mkOrder 8 1] street
    [f32_of_Z 60; f32_of_Z 60; f32_of_Z 60] (f32_of_Z 20) 1 true true.

(** After order 7: order 8 is still pending and order 9 for house 2 has come
    in, with 12 left and a way of 200 at speed 20. *)
Definition world_rush : TestWorld :=
  mkTestWorld [mkOrder 8 1; mkOrder 9 2] street
    [f32_of_Z 60; f32_of_Z 60; f32_of_Z 12] (f32_of_Z 20) 0 true true.

(** Order 7 for house 0 and order 8 for house 2; the pizza for house 2
    burns in 12. *)
Definition world_burning (canDeliver : bool) : TestWorld :=
  mkTestWorld [mkOrder 7 0; mkOrder 8 2] street
    [f32_of_Z 60; f32_of_Z 60; f32_of_Z 12] (f32_of_Z 20) 1 true canDeliver.

(** Two houses exactly 300 away, the pizza for house 1 burning, and the
    pawn not yet placed to deliver. *)
Definition world_boundary : TestWorld :=
  mkTestWorld [mkOrder 7 0; mkOrder 8 1] [house_at 300; house_at 300]
    [f32_of_Z 60; f32_of_Z 12] (f32_of_Z 10) 1 true false.

(** A single order, for house 0 at 50. *)
Definition world_last_order : TestWorld :=
  mkTestWorld [mkOrder 7 0] [house_at 50] [f32_of_Z 60] (f32_of_Z 10) 1 true true.

(** On the way with an order to the house at [x], at the given urgency. *)
Definition delivering (OrderNumber : Z) (x : Z) (status : Z) : Controller :=
  mkController true OrderNumber (Some (house_at x)) status.

(** Back from a delivery to the house at [x], at the given urgency. *)
Definition delivered (x : Z) (status : Z) : Controller :=
  mkController false (-1) (Some (house_at x)) status.

(** The ticks of the runs below: no order numbered -1, no failed pickup. *)
Definition tame (c : Controller) (w : TestWorld) : Prop :=
  numbered_tick c w /\ pickup_succeeds c w.

(** ** Vocabulary of the further properties of [Tick] *)

Section MoreVocabulary.

Context {World : Type} {base : BaseAIController World}.

(** A pizza is in hand, or can be grabbed. *)
Definition pizza_available (w : World) : Prop :=
  GetPizzaAmount w <> 0 \/ fst (TryGrabPizza w) = true.

End MoreVocabulary.

(** No order pending. *)
Definition world_quiet : TestWorld :=
  mkTestWorld [] street [f32_of_Z 60; f32_of_Z 60; f32_of_Z 60] (f32_of_Z 20) 1 true true.

(** The orders of [world_twins], no pizza in hand and none within reach. *)
Definition world_no_pizza : TestWorld :=
  mkTestWorld [mkOrder 7 0; mkOrder 8 1] street
    [f32_of_Z 60; f32_of_Z 60; f32_of_Z 60] (f32_of_Z 20) 0 false true.

(** Three orders: the houses of the first two are both 200 away and have
    30 left, the house of the third is 100 away and has 10 left. *)
Definition world_far_twins : TestWorld :=
  mkTestWorld [mkOrder 7 0; mkOrder 8 1; mkOrder 9 2]
    [house_at 200; house_at 200; house_at 100]
    [f32_of_Z 30; f32_of_Z 30; f32_of_Z 10] (f32_of_Z 100) 1 true true.

(** * Lesson_1: batteries, spawn volumes and the game mode

    The classes of the first lesson, as its walk-through gives them:
    [ABatteryPickup], [ASpawnVolume], [ALesson_1Character] and
    [ALesson_1GameMode].

    The actors of the level live in a store, [Level], and a pointer to an
    actor is its index there; the use of a pointer that leads nowhere, or to
    an actor of another class than its type says, is the error result
    [None].  What the engine is asked to do (spawn an actor, the blueprint
    event [PowerUp], the cinematic mode) is recorded as a list of events;
    an actor the engine spawns is added to the store, at a new pointer.
    The engine's random numbers and its [FMath::FInterpTo] are the fields of
    the interface [Engine], the outcome of [World->SpawnActor] is the field
    of the interface [UWorld]. *)

Definition f32_add (x y : float) : float := SFadd f32_prec f32_emax x y.
Definition f32_mul (x y : float) : float := SFmul f32_prec f32_emax x y.

(** C++ [double], IEEE-754 binary64, for the one comparison made in it. *)
Definition f64_prec : Z := 53.
Definition f64_emax : Z := 1024.

(** The promotion of a [float] to [double]; it is exact. *)
Definition f64_of_f32 (x : float) : spec_float :=
  match x with
  | S754_finite s m e => binary_normalize f64_prec f64_emax (cond_Zopp s (Zpos m)) e s
  | _ => x
  end.

(** The literal [0.05]: the double nearest to 5/100. *)
Definition f64_0_05 : spec_float :=
  SFdiv f64_prec f64_emax
    (binary_normalize f64_prec f64_emax 5 0 false)
    (binary_normalize f64_prec f64_emax 100 0 false).

Class Engine : Type := {
  (** the state of the random number generator *)
  Rand : Type;
  (** [FMath::FRand()] *)
  FRand : Rand -> float * Rand;
  (** [FMath::FRandRange(Min, Max)] *)
  FRandRange : float -> float -> Rand -> float * Rand;
  (** [FMath::FInterpTo(Current, Target, DeltaTime, InterpSpeed)] *)
  FInterpTo : float -> float -> float -> float -> float
}.

Module Lesson_1.

Local Open Scope float32_scope.
Local Infix "+" := f32_add : float32_scope.
Local Infix "*" := f32_mul : float32_scope.

(** [enum class ELesson_1PlayState : short] *)
Inductive ELesson_1PlayState : Type := EPlaying | EGameOver | EUnknown.

Definition ELesson_1PlayState_eqb (a b : ELesson_1PlayState) : bool :=
  match a, b with
  | EPlaying, EPlaying | EGameOver, EGameOver | EUnknown, EUnknown => true
  | _, _ => false
  end.

Definition ptr : Type := nat.

Record FRotator : Type := mkFRotator { Pitch : float; Yaw : float; Roll : float }.

(** [TSubclassOf<APickup>]: the classes a volume can be told to spawn. *)
Inductive UClass : Type :=
| APickup_StaticClass
| ABatteryPickup_StaticClass
| BlueprintClass (id : nat).

Inductive Event : Type :=
| SpawnActor (Class : UClass) (SpawnLocation : FVector) (SpawnRotation : FRotator)
    (Owner : ptr) (Instigator : option ptr)
| PowerUp (BatteryPower : float)
| SetCinematicMode (bInCinematicMode bAffectsMovement bAffectsTurning : bool).

(** ** [ABatteryPickup], a subclass of [APickup] *)

Module ABatteryPickup.

(** [bIsActive] is the field of [APickup], [PowerLevel] the one of the
    battery; [bPendingKill] is the engine's mark of a destroyed actor, which
    [IsPendingKill()] reads and [Destroy()] sets. *)
Record t : Type := mk { bIsActive : bool; PowerLevel : float; bPendingKill : bool }.

(** [APickup::APickup()] followed by [ABatteryPickup::ABatteryPickup()]. *)
Definition ABatteryPickup : t :=
  {| bIsActive := true; PowerLevel := f32_of_Z 150; bPendingKill := false |}.

Definition Destroy (b : t) : t :=
  {| bIsActive := bIsActive b; PowerLevel := PowerLevel b; bPendingKill := true |}.

(** [APickup::OnPickedUp_Implementation()] does nothing. *)
Definition APickup_OnPickedUp_Implementation (b : t) : t := b.

(** [ABatteryPickup::OnPickedUp_Implementation()] *)
Definition OnPickedUp_Implementation (b : t) : t :=
  Destroy (APickup_OnPickedUp_Implementation b).

End ABatteryPickup.

(** ** [ASpawnVolume] *)

Module ASpawnVolume.

(** [Origin] and [BoxExtent] are the bounds of the [WhereToSpawn] box;
    [HasWorld] says whether [GetWorld()] returns a world. *)
Record t : Type := mk {
  Origin : FVector;
  BoxExtent : FVector;
  HasWorld : bool;
  Instigator : option ptr;
  WhatToSpawn : option UClass;
  SpawnDelayRangeLow : float;
  SpawnDelayRangeHigh : float;
  SpawnDelay : float;
  SpawnTime : float;
  bSpawningEnabled : bool
}.

Definition set_bSpawningEnabled (b : bool) (v : t) : t :=
  mk (Origin v) (BoxExtent v) (HasWorld v) (Instigator v) (WhatToSpawn v)
     (SpawnDelayRangeLow v) (SpawnDelayRangeHigh v) (SpawnDelay v) (SpawnTime v) b.

Definition set_timer (time delay : float) (v : t) : t :=
  mk (Origin v) (BoxExtent v) (HasWorld v) (Instigator v) (WhatToSpawn v)
     (SpawnDelayRangeLow v) (SpawnDelayRangeHigh v) delay time (bSpawningEnabled v).

Definition EnableSpawning (v : t) : t := set_bSpawningEnabled true v.
Definition DisableSpawning (v : t) : t := set_bSpawningEnabled false v.

Section WithEngine.

Context {engine : Engine}.

Definition GetRandomSpawnDelay (v : t) (r : Rand) : float * Rand :=
  FRandRange (SpawnDelayRangeLow v) (SpawnDelayRangeHigh v) r.

Definition GetRandomPointInVolume (v : t) (r : Rand) : FVector * Rand :=
  let two := f32_of_Z 2 in
  let MinX := vX (Origin v) - vX (BoxExtent v) / two in
  let MinY := vY (Origin v) - vY (BoxExtent v) / two in
  let MinZ := vZ (Origin v) - vZ (BoxExtent v) / two in
  let MaxX := vX (Origin v) + vX (BoxExtent v) / two in
  let MaxY := vY (Origin v) + vY (BoxExtent v) / two in
  let MaxZ := vZ (Origin v) + vZ (BoxExtent v) / two in
  let '(X, r) := FRandRange MinX MaxX r in
  let '(Y, r) := FRandRange MinY MaxY r in
  let '(Z, r) := FRandRange MinZ MaxZ r in
  (mkFVector X Y Z, r).

Definition SpawnPickup (this : ptr) (v : t) (r : Rand) : list Event * Rand :=
  match WhatToSpawn v with
  | None => ([], r)
  | Some Class =>
      if negb (HasWorld v) then ([], r)
      else
        let '(SpawnLocation, r) := GetRandomPointInVolume v r in
        let '(x, r) := FRand r in
        let Yaw := x * f32_of_Z 360 in
        let '(x, r) := FRand r in
        let Pitch := x * f32_of_Z 360 in
        let '(x, r) := FRand r in
        let Roll := x * f32_of_Z 360 in
        ([SpawnActor Class SpawnLocation (mkFRotator Pitch Yaw Roll) this (Instigator v)],
         r)
  end.

Definition Tick (this : ptr) (v : t) (DeltaTime : float) (r : Rand)
    : t * list Event * Rand :=
  if negb (bSpawningEnabled v) then (v, [], r)
  else
    let SpawnTime := SpawnTime v + DeltaTime in
    let bShouldSpawn := SpawnDelay v <? SpawnTime in
    if bShouldSpawn then
      let '(events, r) := SpawnPickup this v r in
      let SpawnTime := SpawnTime - SpawnDelay v in
      let '(SpawnDelay, r) := GetRandomSpawnDelay v r in
      (set_timer SpawnTime SpawnDelay v, events, r)
    else (set_timer SpawnTime (SpawnDelay v) v, [], r).

End WithEngine.

End ASpawnVolume.

(** ** The actors of the level *)

Inductive AActor : Type :=
| Battery (b : ABatteryPickup.t)
| SpawnVolume (v : ASpawnVolume.t)
| OtherActor.

Definition Level : Type := list AActor.

Definition deref (level : Level) (p : ptr) : option AActor := nth_error level p.

(** Writing through a pointer. *)
Fixpoint store (level : Level) (p : ptr) (a : AActor) : Level :=
  match level, p with
  | [], _ => []
  | _ :: rest, O => a :: rest
  | a0 :: rest, S p' => a0 :: store rest p' a
  end.

(** [UGameplayStatics::GetAllActorsOfClass(GetWorld(),
    ASpawnVolume::StaticClass(), FoundActors)]: the spawn volumes among the
    actors from pointer [p] on. *)
Fixpoint GetAllSpawnVolumes (level : Level) (p : ptr) : list ptr :=
  match level with
  | [] => []
  | SpawnVolume _ :: rest => p :: GetAllSpawnVolumes rest (S p)
  | _ :: rest => GetAllSpawnVolumes rest (S p)
  end.

(** What [World->SpawnActor<APickup>(Class, Location, Rotation, Params)]
    brings into the level: nothing when the engine does not spawn (the call
    returns null), else a new pickup of the class asked for - a battery, in
    the state its constructor and its class defaults give it, or a pickup of
    another class. *)
Inductive Spawned : Type :=
| NotSpawned
| SpawnedBattery (b : ABatteryPickup.t)
| SpawnedPickup.

(** The world the actors are spawned in; the outcome of a spawn may depend
    on the actors that are there. *)
Class UWorld : Type := {
  SpawnActor_APickup : Level -> UClass -> FVector -> FRotator -> Spawned
}.

(** The new actor gets a pointer of its own, after all the others. *)
Definition add_spawned (s : Spawned) (level : Level) : Level :=
  match s with
  | NotSpawned => level
  | SpawnedBattery b => level ++ [Battery b]
  | SpawnedPickup => level ++ [OtherActor]
  end.

(** ** [ALesson_1Character] *)

Module ALesson_1Character.

(** [MaxWalkSpeed] is the field of the character's movement component. *)
Record t : Type := mk {
  PowerLevel : float;
  SpeedFactor : float;
  BaseSpeed : float;
  MaxWalkSpeed : float
}.

Definition set_PowerLevel (x : float) (ch : t) : t :=
  mk x (SpeedFactor ch) (BaseSpeed ch) (MaxWalkSpeed ch).

(** [ALesson_1Character::Tick] *)
Definition Tick (ch : t) (DeltaSeconds : float) : t :=
  mk (PowerLevel ch) (SpeedFactor ch) (BaseSpeed ch)
     (SpeedFactor ch * PowerLevel ch + BaseSpeed ch).

(** The loop of [CollectBatteries] over [CollectedActors]. *)
Fixpoint collect_loop (CollectedActors : list ptr) (level : Level)
    (BatteryPower : float) : option (Level * float) :=
  match CollectedActors with
  | [] => Some (level, BatteryPower)
  | p :: rest =>
      a <- deref level p ;;
      match a with
      | Battery TestBattery =>
          if negb (ABatteryPickup.bPendingKill TestBattery) &&
             ABatteryPickup.bIsActive TestBattery
          then
            let BatteryPower := BatteryPower + ABatteryPickup.PowerLevel TestBattery in
            let TestBattery :=
              ABatteryPickup.mk false (ABatteryPickup.PowerLevel TestBattery)
                (ABatteryPickup.bPendingKill TestBattery) in
            let TestBattery := ABatteryPickup.OnPickedUp_Implementation TestBattery in
            collect_loop rest (store level p (Battery TestBattery)) BatteryPower
          else collect_loop rest level BatteryPower
      | _ => collect_loop rest level BatteryPower
      end
  end.

(** [ALesson_1Character::CollectBatteries], in its final form, with the
    test of the game state at its beginning.  [CurrentState] is what
    [MyGameMode->GetCurrentState()] returns and [CollectedActors] what
    [CollectionSphere->GetOverlappingActors] finds; [OnPickedUp()] runs the
    native implementation of the battery. *)
Definition CollectBatteries (CurrentState : ELesson_1PlayState)
    (CollectedActors : list ptr) (level : Level) (ch : t)
    : option (Level * t * list Event) :=
  if ELesson_1PlayState_eqb CurrentState EGameOver then Some (level, ch, [])
  else
    '(level, BatteryPower) <- collect_loop CollectedActors level (f32_of_Z 0) ;;
    if f32_of_Z 0 <? BatteryPower
    then Some (level, set_PowerLevel (PowerLevel ch + BatteryPower) ch,
               [PowerUp BatteryPower])
    else Some (level, ch, []).

End ALesson_1Character.

(** ** [ALesson_1GameMode] *)

Module ALesson_1GameMode.

Record t : Type := mk {
  CurrentState : ELesson_1PlayState;
  DecayRate : float;
  SpawnVolumeActors : list ptr
}.

Definition GetCurrentState (g : t) : ELesson_1PlayState := CurrentState g.

(** [for (ASpawnVolume* Volume : SpawnVolumeActors) Volume->f();] *)
Fixpoint for_each_volume (f : ASpawnVolume.t -> ASpawnVolume.t)
    (volumes : list ptr) (level : Level) : option Level :=
  match volumes with
  | [] => Some level
  | Volume :: rest =>
      match deref level Volume with
      | Some (SpawnVolume v) =>
          for_each_volume f rest (store level Volume (SpawnVolume (f v)))
      | _ => None
      end
  end.

Definition HandleNewState (NewState : ELesson_1PlayState) (g : t) (level : Level)
    : option (Level * list Event) :=
  match NewState with
  | EPlaying =>
      level <- for_each_volume ASpawnVolume.EnableSpawning (SpawnVolumeActors g) level ;;
      Some (level, [])
  | EGameOver =>
      level <- for_each_volume ASpawnVolume.DisableSpawning (SpawnVolumeActors g) level ;;
      Some (level, [SetCinematicMode true true true])
  | EUnknown => Some (level, [])
  end.

Definition SetCurrentState (NewState : ELesson_1PlayState) (g : t) (level : Level)
    : option (t * Level * list Event) :=
  let g := mk NewState (DecayRate g) (SpawnVolumeActors g) in
  '(level, events) <- HandleNewState (CurrentState g) g level ;;
  Some (g, level, events).

(** [MyCharacter->PowerLevel > 0.05], a comparison in [double]. *)
Definition has_power (ch : ALesson_1Character.t) : bool :=
  SFltb f64_0_05 (f64_of_f32 (ALesson_1Character.PowerLevel ch)).

Section WithEngine.

Context {engine : Engine}.

(** [ALesson_1GameMode::Tick]; [MyCharacter] is the player's pawn. *)
Definition Tick (g : t) (level : Level) (MyCharacter : ALesson_1Character.t)
    (DeltaSeconds : float)
    : option (t * Level * ALesson_1Character.t * list Event) :=
  if has_power MyCharacter then
    Some (g, level,
          ALesson_1Character.set_PowerLevel
            (FInterpTo (ALesson_1Character.PowerLevel MyCharacter) (f32_of_Z 0)
               DeltaSeconds (DecayRate g))
            MyCharacter,
          [])
  else
    '(g, level, events) <- SetCurrentState EGameOver g level ;;
    Some (g, level, MyCharacter, events).

End WithEngine.



End ALesson_1GameMode.

(** ** The game: the level, the character and the game mode together *)

Record Game : Type := mkGame {
  TheLevel : Level;
  MyCharacter : ALesson_1Character.t;
  MyGameMode : ALesson_1GameMode.t
}.

(** The calls the engine makes while the game runs: the per-frame [Tick]s
    and the key binding of [CollectBatteries]. *)
Inductive EngineCall : Type :=
| GameMode_Tick (DeltaSeconds : float)
| Character_Tick (DeltaSeconds : float)
| Character_CollectBatteries (CollectedActors : list ptr)
| SpawnVolume_Tick (this : ptr) (DeltaTime : float).

Section WithEngine.

Context {engine : Engine} {world : UWorld}.

(** The actors that the [SpawnActor] calls among [events] bring into the
    level. *)
Fixpoint spawn_actors (events : list Event) (level : Level) : Level :=
  match events with
  | [] => level
  | SpawnActor Class SpawnLocation SpawnRotation _ _ :: rest =>
      spawn_actors rest
        (add_spawned (SpawnActor_APickup level Class SpawnLocation SpawnRotation) level)
  | _ :: rest => spawn_actors rest level
  end.

(** In the tick of a spawn volume the actor is spawned when the volume's
    timer has been advanced and not yet wound back: [during] is the level of
    that moment. *)
Definition run (call : EngineCall) (game : Game) (r : Rand)
    : option (Game * list Event * Rand) :=
  match call with
  | GameMode_Tick DeltaSeconds =>
      '(g, level, ch, events) <-
        ALesson_1GameMode.Tick (MyGameMode game) (TheLevel game) (MyCharacter game)
          DeltaSeconds ;;
      Some (mkGame level ch g, events, r)
  | Character_Tick DeltaSeconds =>
      Some (mkGame (TheLevel game)
              (ALesson_1Character.Tick (MyCharacter game) DeltaSeconds)
              (MyGameMode game), [], r)
  | Character_CollectBatteries CollectedActors =>
      '(level, ch, events) <-
        ALesson_1Character.CollectBatteries
          (ALesson_1GameMode.GetCurrentState (MyGameMode game))
          CollectedActors (TheLevel game) (MyCharacter game) ;;
      Some (mkGame level ch (MyGameMode game), events, r)
  | SpawnVolume_Tick this DeltaTime =>
      match deref (TheLevel game) this with
      | Some (SpawnVolume v) =>
          let '(v', events, r) := ASpawnVolume.Tick this v DeltaTime r in
          let during :=
            store (TheLevel game) this
              (SpawnVolume
                 (ASpawnVolume.set_timer (ASpawnVolume.SpawnTime v + DeltaTime)
                    (ASpawnVolume.SpawnDelay v) v)) in
          let level := spawn_actors events during in
          Some (mkGame (store level this (SpawnVolume v'))
                  (MyCharacter game) (MyGameMode game), events, r)
      | _ => None
      end
  end.

(** A sequence of such calls, one after the other. *)
Fixpoint runs (calls : list EngineCall) (game : Game) (r : Rand)
    : option (Game * list Event * Rand) :=
  match calls with
  | [] => Some (game, [], r)
  | call :: rest =>
      '(game, events, r) <- run call game r ;;
      '(game, events', r) <- runs rest game r ;;
      Some (game, events ++ events', r)
  end.

End WithEngine.

(** ** Vocabulary of the properties *)

(** A battery that [CollectBatteries] would collect. *)
Definition collectable (a : AActor) : bool :=
  match a with
  | Battery b => negb (ABatteryPickup.bPendingKill b) && ABatteryPickup.bIsActive b
  | _ => false
  end.

(** What a collected battery becomes. *)
Definition spent (b : ABatteryPickup.t) : ABatteryPickup.t :=
  ABatteryPickup.mk false (ABatteryPickup.PowerLevel b) true.

(** A spawn volume that spawns. *)
Definition spawning (a : AActor) : bool :=
  match a with
  | SpawnVolume v => ASpawnVolume.bSpawningEnabled v
  | _ => false
  end.

Definition is_volume (a : AActor) : bool :=
  match a with SpawnVolume _ => true | _ => false end.

(** The spawn volumes of two levels sit at the same pointers. *)
Definition same_volumes (level level' : Level) : Prop :=
  forall p, option_map is_volume (deref level' p) = option_map is_volume (deref level p).

(** The level has grown: the actors that were there are still there, the
    spawn volumes among them are spawn volumes still and no other actor has
    become one, and no actor that has come in is a spawn volume. *)
Definition grown (level level' : Level) : Prop :=
  (length level <= length level')%nat /\
  forall p a', deref level' p = Some a' ->
    match deref level p with
    | Some a => is_volume a' = is_volume a
    | None => is_volume a' = false
    end.

Definition is_spawn (event : Event) : bool :=
  match event with SpawnActor _ _ _ _ _ => true | _ => false end.

(** What becomes of an actor when the volumes are switched: [f] is applied
    to a spawn volume, every other actor stays. *)
Definition switched (f : ASpawnVolume.t -> ASpawnVolume.t) (level level' : Level)
    : Prop :=
  length level' = length level /\
  forall p,
    deref level' p =
      match deref level p with
      | Some (SpawnVolume v) => Some (SpawnVolume (f v))
      | other => other
      end.

(** The game mode remembers exactly the spawn volumes of the level. *)
Definition all_registered (game : Game) : Prop :=
  forall p,
    In p (ALesson_1GameMode.SpawnVolumeActors (MyGameMode game)) <->
    exists v, deref (TheLevel game) p = Some (SpawnVolume v).

(** The game is over: the state says so, the character is out of power and
    no volume spawns. *)
Definition game_over (game : Game) : Prop :=
  ALesson_1GameMode.CurrentState (MyGameMode game) = EGameOver /\
  ALesson_1GameMode.has_power (MyCharacter game) = false /\
  all_registered game /\
  forall p a, deref (TheLevel game) p = Some a -> spawning a = false.

(** A stand-in for the engine: the generator counts its draws, every draw
    is the lower end of its range, and the interpolation jumps to its
    target. *)
#[export] Instance TestEngine : Engine := {|
  Rand := nat;
  FRand := fun r => (f32_of_Z 0, S r);
  FRandRange := fun Min Max r => (Min, S r);
  FInterpTo := fun Current Target DeltaTime InterpSpeed => Target
|}.

(** A stand-in for the world: a battery class gives a fresh battery, the
    pickup class a pickup, and no blueprint class can be spawned. *)
#[export] Instance TestSpawner : UWorld := {|
  SpawnActor_APickup := fun level Class SpawnLocation SpawnRotation =>
    match Class with
    | ABatteryPickup_StaticClass => SpawnedBattery ABatteryPickup.ABatteryPickup
    | APickup_StaticClass => SpawnedPickup
    | BlueprintClass _ => NotSpawned
    end
|}.

(** ** A small level to run the game in *)

(** A volume at the origin that spawns batteries, 2 into a delay of 3. *)
Definition test_volume (bSpawningEnabled : bool) : ASpawnVolume.t :=
  ASpawnVolume.mk (house_at 0) (house_at 10) true None
    (Some ABatteryPickup_StaticClass)
    (f32_of_Z 1) (f32_of_Z 4) (f32_of_Z 3) (f32_of_Z 2) bSpawningEnabled.

(** Two fresh batteries, a disabled and an enabled volume, and a rock. *)
Definition test_level : Level :=
  [Battery ABatteryPickup.ABatteryPickup; OtherActor; SpawnVolume (test_volume false);
   Battery ABatteryPickup.ABatteryPickup; SpawnVolume (test_volume true)].

(** The same level after both batteries have been collected. *)
Definition swept_level : Level :=
  [Battery (spent ABatteryPickup.ABatteryPickup); OtherActor;
   SpawnVolume (test_volume false);
   Battery (spent ABatteryPickup.ABatteryPickup); SpawnVolume (test_volume true)].

(** The swept level after a tick of 2 of the enabled volume: its timer has
    passed the delay by 1, a new delay of 1 is drawn, and a fresh battery
    has come in at the lower corner of the box. *)
Definition spawned_level : Level :=
  [Battery (spent ABatteryPickup.ABatteryPickup); OtherActor;
   SpawnVolume (test_volume false);
   Battery (spent ABatteryPickup.ABatteryPickup);
   SpawnVolume (ASpawnVolume.set_timer (f32_of_Z 1) (f32_of_Z 1) (test_volume true));
   Battery ABatteryPickup.ABatteryPickup].

(** The same level with both volumes disabled. *)
Definition quiet_level : Level :=
  [Battery ABatteryPickup.ABatteryPickup; OtherActor; SpawnVolume (test_volume false);
   Battery ABatteryPickup.ABatteryPickup; SpawnVolume (test_volume false)].

Definition test_character (PowerLevel : Z) : ALesson_1Character.t :=
  ALesson_1Character.mk (f32_of_Z PowerLevel) (f32_of_Z 2) (f32_of_Z 10) (f32_of_Z 0).

Definition test_game_mode (CurrentState : ELesson_1PlayState) (volumes : list ptr)
    : ALesson_1GameMode.t :=
  ALesson_1GameMode.mk CurrentState (f32_of_Z 1) volumes.

(** The game in play. *)
Definition test_game : Game :=
  mkGame test_level (test_character 2000) (test_game_mode EPlaying [2; 4]%nat).

(** The game in play, the character out of power. *)
Definition exhausted_game : Game :=
  mkGame test_level (test_character 0) (test_game_mode EPlaying [2; 4]%nat).

(** The game over. *)
Definition finished_game : Game :=
  mkGame quiet_level (test_character 0) (test_game_mode EGameOver [2; 4]%nat).

End Lesson_1.
(** ** Comparison of floats

    [x <? y] is a strict partial order on all of [float] (NaN is comparable
    with nothing, not even itself), and [x ==? y] is compatible with it. *)

Section FloatOrder.

Local Open Scope float32_scope.

Ltac order_cases :=
  repeat match goal with
  | |- context [Pos.compare_cont Eq ?a ?b] =>
      change (Pos.compare_cont Eq a b) with (Pos.compare a b) in *
  | H : context [Pos.compare_cont Eq ?a ?b] |- _ =>
      change (Pos.compare_cont Eq a b) with (Pos.compare a b) in *
  | |- context [Z.compare ?a ?b] => destruct (Z.compare_spec a b)
  | |- context [Pos.compare ?a ?b] => destruct (Pos.compare_spec a b)
  | H : context [Z.compare ?a ?b] |- _ => destruct (Z.compare_spec a b)
  | H : context [Pos.compare ?a ?b] |- _ => destruct (Pos.compare_spec a b)
  end.

Ltac float_cases x y z :=
  unfold f32_ltb, f32_eqb, SFltb, SFeqb, SFcompare;
  destruct x as [[]|[]| |[] ? ?], y as [[]|[]| |[] ? ?], z as [[]|[]| |[] ? ?];
  simpl; try congruence; intros;
  order_cases; simpl in *; subst; try congruence; try lia.

Lemma f32_ltb_irrefl (x : float) : (x <? x) = false.
Proof.
  unfold f32_ltb, SFltb, SFcompare.
  destruct x as [[]|[]| |[] m e]; try reflexivity;
    change (Pos.compare_cont Eq m m) with (Pos.compare m m);
    rewrite Z.compare_refl, Pos.compare_refl; reflexivity.
Qed.

Lemma f32_ltb_trans (x y z : float) :
  (x <? y) = true -> (y <? z) = true -> (x <? z) = true.
Proof. float_cases x y z. Qed.


End FloatOrder.

(** ** Facts about the minimum search *)

Section Scan.

Local Open Scope float32_scope.

(** The search returns its initial candidate, or an element of the list that
    is strictly below the initial key. *)
Lemma scan_min_result keys : forall i best bestKey r rk,
  scan_min keys i best bestKey = Some (r, rk) ->
  (r = best /\ rk = bestKey) \/
  (exists n, r = (i + n)%nat /\ nth_error keys n = Some (Some rk) /\
             (rk <? bestKey) = true).
Proof.
  induction keys as [|[k|] keys IH]; simpl; intros i best bestKey r rk H.
  - left. injection H as <- <-. auto.
  - destruct (k <? bestKey) eqn:Hlt; apply IH in H as [[-> ->]|(n & -> & Hn & Hrk)].
    + right. exists 0%nat. rewrite Nat.add_0_r. auto.
    + right. exists (S n). repeat split; [lia | assumption |].
      eapply f32_ltb_trans; eassumption.
    + left. auto.
    + right. exists (S n). repeat split; [lia | assumption | assumption].
  - discriminate.
Qed.


(** The search succeeds when every key is defined. *)
Lemma scan_min_defined keys : forall i best bestKey,
  Forall (fun k => k <> None) keys ->
  exists r rk, scan_min keys i best bestKey = Some (r, rk).
Proof.
  induction keys as [|[k|] keys IH]; simpl; intros i best bestKey Hall.
  - eauto.
  - inversion Hall; subst. destruct (k <? bestKey); auto.
  - inversion Hall; subst. congruence.
Qed.

(** The key the search returns is the initial key or lies below it, and no
    key of the list lies strictly below it. *)
Lemma scan_min_lower_bound keys : forall i best bestKey r rk,
  scan_min keys i best bestKey = Some (r, rk) ->
  (rk = bestKey \/ (rk <? bestKey) = true) /\
  (forall n k, nth_error keys n = Some (Some k) -> (k <? rk) = false).
Proof.
  induction keys as [|[k|] keys IH]; simpl; intros i best bestKey r rk H.
  - injection H as <- <-. split; [auto|]. intros [|n] k0 Hn; discriminate.
  - destruct (k <? bestKey) eqn:Hlt; apply IH in H as [Hrk Hall].
    + split.
      * right. destruct Hrk as [->|Hrk]; [assumption|].
        eapply f32_ltb_trans; eassumption.
      * intros [|n] k0 Hn; [|eauto]. injection Hn as <-.
        destruct Hrk as [->|Hrk]; [apply f32_ltb_irrefl|].
        destruct (k <? rk) eqn:E; [|reflexivity].
        rewrite <- (f32_ltb_irrefl k). symmetry.
        eapply f32_ltb_trans; eassumption.
    + split; [assumption|].
      intros [|n] k0 Hn; [|eauto]. injection Hn as <-.
      destruct Hrk as [->|Hrk]; [assumption|].
      destruct (k <? rk) eqn:E; [|reflexivity].
      rewrite <- Hlt. symmetry. eapply f32_ltb_trans; eassumption.
  - discriminate.
Qed.

End Scan.

(** ** Facts about the loops of [Tick] *)

Section Loops.

Context {World : Type} {base : BaseAIController World}.

Local Open Scope float32_scope.

Lemma closest_loop_scan w locs rest : forall i c cd,
  closest_loop w locs rest i c cd = scan_min (map (distance_of w locs) rest) i c cd.
Proof.
  induction rest as [|o rest IH]; simpl; intros i c cd; [reflexivity|].
  unfold distance_of at 1.
  destruct (index locs (HouseNumber o)) as [p|]; simpl; [|reflexivity].
  destruct (_ <? cd); apply IH.
Qed.

Lemma terrible_loop_scan w rest : forall i c bt,
  terrible_loop w rest i c bt = scan_min (map (timeLeft_of w) rest) i c bt.
Proof.
  induction rest as [|o rest IH]; simpl; intros i c bt; [reflexivity|].
  unfold timeLeft_of at 1.
  destruct (GetHouseTimeLeft w (HouseNumber o)) as [t|]; [|reflexivity].
  destruct (t <? bt); apply IH.
Qed.

Lemma closestOrder_of_first_min w locs Orders :
  closestOrder_of w locs Orders = first_min (distance_of w locs) Orders.
Proof.
  unfold closestOrder_of, first_min. destruct Orders as [|o0 Orders]; [reflexivity|].
  cbn [nth_error]. unfold distance_of at 1.
  destruct (index locs (HouseNumber o0)); cbn [option_map]; [|reflexivity].
  apply closest_loop_scan.
Qed.

Lemma terribleOrder_of_first_min w Orders :
  terribleOrder_of w Orders = first_min (timeLeft_of w) Orders.
Proof.
  unfold terribleOrder_of, first_min. destruct Orders as [|o0 Orders]; [reflexivity|].
  cbn [nth_error]. unfold timeLeft_of at 1.
  destruct (GetHouseTimeLeft w (HouseNumber o0)); [|reflexivity].
  apply terrible_loop_scan.
Qed.

(** The result of such a search is an order of the list, with its key. *)
Lemma first_min_in key Orders r rk :
  first_min key Orders = Some (r, rk) ->
  exists o, nth_error Orders r = Some o /\ key o = Some rk.
Proof.
  unfold first_min. destruct Orders as [|o0 Orders]; [discriminate|].
  destruct (key o0) as [k0|] eqn:Hk0; [|discriminate]. intros H.
  apply scan_min_result in H as [[-> ->]|(n & -> & Hn & _)].
  - exists o0. auto.
  - rewrite nth_error_map in Hn. simpl (0 + n)%nat.
    destruct (nth_error (o0 :: Orders) n) as [o|]; [|discriminate].
    exists o. split; [reflexivity|]. simpl in Hn. congruence.
Qed.


Lemma first_min_lower_bound key Orders r rk :
  first_min key Orders = Some (r, rk) ->
  forall j oj kj, nth_error Orders j = Some oj -> key oj = Some kj ->
    (kj <? rk) = false.
Proof.
  unfold first_min. destruct Orders as [|o0 Orders]; [discriminate|].
  destruct (key o0) as [k0|]; [|discriminate]. intros H j oj kj Hj Hkj.
  apply scan_min_lower_bound in H as [_ Hall].
  apply (Hall j kj). rewrite nth_error_map, Hj. simpl. congruence.
Qed.



(** The search succeeds on a non-empty list whose keys are all defined. *)
Lemma first_min_defined key Orders :
  Orders <> [] -> Forall (fun o => key o <> None) Orders ->
  exists r rk, first_min key Orders = Some (r, rk).
Proof.
  unfold first_min. destruct Orders as [|o0 Orders]; [congruence|].
  intros _ Hall. pose proof (Forall_inv Hall) as H0. simpl in H0.
  destruct (key o0) as [k0|]; [|congruence].
  apply scan_min_defined. rewrite Forall_map. exact Hall.
Qed.

Lemma rescan_loop_existsb w locs Distance rest :
  Forall (fun o => WaitsHousePizzaDelivery w (HouseNumber o) = true ->
                   index locs (HouseNumber o) <> None) rest ->
  rescan_loop w locs rest Distance = Some (existsb (colocated w locs Distance) rest).
Proof.
  induction rest as [|o rest IH]; simpl; intros Hall; [reflexivity|].
  inversion Hall as [|? ? Ho Hrest]; subst. unfold colocated at 1.
  destruct (WaitsHousePizzaDelivery w (HouseNumber o)); simpl; [|exact (IH Hrest)].
  destruct (index locs (HouseNumber o)) as [p|]; [|exfalso; exact (Ho eq_refl eq_refl)].
  destruct (Distance ==? _); simpl; [reflexivity|exact (IH Hrest)].
Qed.

End Loops.

(** ** Facts about [Tick] *)

Section TickFacts.

Context {World : Type} {base : BaseAIController World}.

Local Open Scope float32_scope.

Lemma lock_urgency_fields Distance c :
  bDeliveringOrder (lock_urgency Distance c) = bDeliveringOrder c /\
  CurrentOrderNumber (lock_urgency Distance c) = CurrentOrderNumber c /\
  CurrentDestination (lock_urgency Distance c) = CurrentDestination c.
Proof. unfold lock_urgency. destruct (_ && _); auto. Qed.

(** [Tick] returns along one of its paths, and each path is a run of [Tick]. *)
Lemma Tick_path_sound c w out : Tick c w = Some out -> Tick_path c w out.
Proof.
  unfold Tick. destruct (bDeliveringOrder c) eqn:Hb.
  - unfold TickDelivering.
    destruct (CurrentDestination c) as [d|] eqn:Hd; [|discriminate].
    destruct (f32_of_Z 300 <? _) eqn:Hfar.
    + intros [= <-]. now apply path_far.
    + destruct (lock_urgency_fields (GetDistanceToDestination w d) c) as (_ & -> & ->).
      destruct (TryDeliverPizza (CurrentOrderNumber c) w) as [[] w1] eqn:Hdel.
      * destruct (rescan_loop _ _ _ _) as [found|] eqn:Hscan; [|discriminate].
        intros [= <-]. rewrite Hd.
        replace (if found then set_terribleStatus 2 _ else _)
          with {| bDeliveringOrder := false; CurrentOrderNumber := -1;
                  CurrentDestination := Some d;
                  terribleStatus := if found then 2 else 0 |}
          by (destruct found; reflexivity).
        now apply path_delivered.
      * intros [= <-]. now apply path_retry.
  - unfold TickIdle.
    destruct (GetPizzaOrders w) as [|o0 Orders] eqn:HO.
    + intros [= <-]. now apply path_no_orders.
    + cbn [length Nat.eqb]. rewrite <- HO.
      destruct (SelectOrder _ _ _ _) as [[Order status]|] eqn:Hsel; [|discriminate].
      assert (HO' : GetPizzaOrders w <> []) by (rewrite HO; discriminate).
      destruct (GetPizzaAmount w =? 0) eqn:Hamount.
      * apply Z.eqb_eq in Hamount.
        destruct (TryGrabPizza w) as [[] w1] eqn:Hgrab; cbn [negb].
        -- unfold TakeOrder.
           destruct (index _ (HouseNumber Order)) as [p|] eqn:Hp; [|discriminate].
           intros [= <-]. eapply path_grabbed; eassumption.
        -- intros [= <-]. eapply path_no_pizza; eassumption.
      * apply Z.eqb_neq in Hamount. unfold TakeOrder.
        destruct (index _ (HouseNumber Order)) as [p|] eqn:Hp; [|discriminate].
        intros [= <-]. eapply path_loaded; eassumption.
Qed.

Lemma Tick_path_complete c w out : Tick_path c w out -> Tick c w = Some out.
Proof.
  intros H. unfold Tick.
  destruct H as [d Hb Hd Hfar | d w1 Hb Hd Hfar Hdel | d w1 found Hb Hd Hfar Hdel Hscan
                | Hb HO | Order status w1 Hb HO Hsel Hamount Hgrab
                | Order status w1 p Hb HO Hsel Hamount Hgrab Hp
                | Order status p Hb HO Hsel Hamount Hp];
    rewrite Hb.
  - unfold TickDelivering. rewrite Hd, Hfar. reflexivity.
  - unfold TickDelivering. rewrite Hd, Hfar.
    destruct (lock_urgency_fields (GetDistanceToDestination w d) c) as (_ & -> & _).
    rewrite Hdel. reflexivity.
  - unfold TickDelivering. rewrite Hd, Hfar.
    destruct (lock_urgency_fields (GetDistanceToDestination w d) c) as (_ & -> & ->).
    rewrite Hdel, Hscan, Hd. destruct found; reflexivity.
  - unfold TickIdle. rewrite HO. reflexivity.
  - unfold TickIdle. destruct (GetPizzaOrders w) eqn:E; [congruence|].
    cbn [length Nat.eqb]. rewrite Hsel, Hamount, Hgrab. reflexivity.
  - unfold TickIdle. destruct (GetPizzaOrders w) eqn:E; [congruence|].
    cbn [length Nat.eqb]. rewrite Hsel, Hamount, Hgrab. cbn [Z.eqb negb].
    unfold TakeOrder. rewrite Hp. reflexivity.
  - unfold TickIdle. destruct (GetPizzaOrders w) eqn:E; [congruence|].
    cbn [length Nat.eqb]. rewrite Hsel.
    apply Z.eqb_neq in Hamount. rewrite Hamount.
    unfold TakeOrder. rewrite Hp. reflexivity.
Qed.

(** What [SelectOrder] returns, in terms of the results of the two loops. *)
Lemma SelectOrder_inv status w locs Orders Order status' :
  SelectOrder status w locs Orders = Some (Order, status') ->
  exists ci cd ti bt oc ot pt,
    closestOrder_of w locs Orders = Some (ci, cd) /\
    terribleOrder_of w Orders = Some (ti, bt) /\
    nth_error Orders ci = Some oc /\ nth_error Orders ti = Some ot /\
    index locs (HouseNumber ot) = Some pt /\
    (Order, status') =
      if burning w bt pt && negb (status =? 2) then (ot, 1) else (oc, status).
Proof.
  unfold SelectOrder.
  destruct (closestOrder_of w locs Orders) as [[ci cd]|]; [|discriminate].
  destruct (terribleOrder_of w Orders) as [[ti bt]|]; [|discriminate].
  destruct (nth_error Orders ci) as [oc|] eqn:Hoc; [|discriminate].
  destruct (nth_error Orders ti) as [ot|] eqn:Hot; [|discriminate].
  destruct (index locs (HouseNumber ot)) as [pt|] eqn:Hpt; [|discriminate].
  intros H. exists ci, cd, ti, bt, oc, ot, pt.
  repeat (split; [solve [auto]|]).
  destruct (burning w bt pt && negb (status =? 2)); congruence.
Qed.

Lemma SelectOrder_eq status w locs Orders ci cd ti bt oc ot pt :
  closestOrder_of w locs Orders = Some (ci, cd) ->
  terribleOrder_of w Orders = Some (ti, bt) ->
  nth_error Orders ci = Some oc -> nth_error Orders ti = Some ot ->
  index locs (HouseNumber ot) = Some pt ->
  SelectOrder status w locs Orders =
    Some (if burning w bt pt && negb (status =? 2) then (ot, 1) else (oc, status)).
Proof.
  intros Hc Ht Hoc Hot Hpt. unfold SelectOrder.
  rewrite Hc, Ht, Hoc, Hot, Hpt. destruct (_ && _); reflexivity.
Qed.

(** The order chosen is a pending order; the status is the old one or 1. *)
Lemma SelectOrder_result status w locs Orders Order status' :
  SelectOrder status w locs Orders = Some (Order, status') ->
  In Order Orders /\ (status' = status \/ status' = 1 /\ status <> 2).
Proof.
  intros H. apply SelectOrder_inv in H
    as (ci & cd & ti & bt & oc & ot & pt & _ & _ & Hoc & Hot & _ & H).
  apply nth_error_In in Hoc, Hot.
  destruct (burning w bt pt); cbn [andb] in H;
    [destruct (status =? 2) eqn:E; cbn [negb] in H|]; injection H as -> ->; auto.
  apply Z.eqb_neq in E. auto.
Qed.

(** With every house number valid, the selection reaches its end. *)
Lemma SelectOrder_defined status w locs Orders :
  Orders <> [] ->
  Forall (fun o => index locs (HouseNumber o) <> None /\
                   GetHouseTimeLeft w (HouseNumber o) <> None) Orders ->
  exists Order status', SelectOrder status w locs Orders = Some (Order, status').
Proof.
  intros Hne Hall.
  destruct (first_min_defined (distance_of w locs) Orders Hne) as (ci & cd & Hc).
  { eapply Forall_impl; [|exact Hall]. intros o [Ho _]. unfold distance_of.
    destruct (index locs (HouseNumber o)); [discriminate|congruence]. }
  destruct (first_min_defined (timeLeft_of w) Orders Hne) as (ti & bt & Ht).
  { eapply Forall_impl; [|exact Hall]. intros o [_ Ho]. exact Ho. }
  destruct (first_min_in _ _ _ _ Hc) as (oc & Hoc & _).
  destruct (first_min_in _ _ _ _ Ht) as (ot & Hot & _).
  rewrite <- closestOrder_of_first_min in Hc.
  rewrite <- terribleOrder_of_first_min in Ht.
  pose proof (proj1 (Forall_forall _ _) Hall ot (nth_error_In _ _ Hot)) as [Hpt _].
  destruct (index locs (HouseNumber ot)) as [pt|] eqn:Ept; [|congruence].
  rewrite (SelectOrder_eq status _ _ _ _ _ _ _ _ _ _ Hc Ht Hoc Hot Ept).
  destruct (_ && _); eauto.
Qed.

End TickFacts.

(** ** Properties of the controller *)

Section Claims.

Context {World : Type} {base : BaseAIController World}.

Local Open Scope float32_scope.

Lemma lock_urgency_status Distance c :
  terribleStatus (lock_urgency Distance c) =
    if (terribleStatus c =? Flagged) && (Distance <? f32_of_Z 300)
    then Committed else terribleStatus c.
Proof. unfold lock_urgency. destruct (_ && _); reflexivity. Qed.

(** Below 300 a Flagged urgency is locked in. *)
Lemma lock_urgency_below Distance c :
  terribleStatus c = Flagged -> (Distance <? f32_of_Z 300) = true ->
  terribleStatus (lock_urgency Distance c) = Committed.
Proof. intros Hs Hd. rewrite lock_urgency_status, Hs, Hd. reflexivity. Qed.

Lemma reachable_when_weaken (ok ok' : Controller -> World -> Prop) c :
  (forall c w, ok c w -> ok' c w) -> reachable_when ok c -> reachable_when ok' c.
Proof.
  intros Hok H. induction H as [|c w c' w' calls _ IH Hw Ht].
  - apply reach_constructor.
  - eapply reach_Tick; eauto.
Qed.

Lemma Tick_urgency_level c w c' w' calls :
  urgency_level (terribleStatus c) -> Tick c w = Some (c', w', calls) ->
  urgency_level (terribleStatus c').
Proof.
  unfold urgency_level, Normal, Flagged, Committed. intros Hc H.
  apply Tick_path_sound in H. inversion H; subst; cbn [terribleStatus]; auto.
  - rewrite lock_urgency_status. destruct (_ && _); auto.
  - destruct found; auto.
  - match goal with Hsel : SelectOrder _ _ _ _ = _ |- _ =>
      apply SelectOrder_result in Hsel as [_ [->|[-> _]]] end; auto.
  - match goal with Hsel : SelectOrder _ _ _ _ = _ |- _ =>
      apply SelectOrder_result in Hsel as [_ [->|[-> _]]] end; auto.
  - match goal with Hsel : SelectOrder _ _ _ _ = _ |- _ =>
      apply SelectOrder_result in Hsel as [_ [->|[-> _]]] end; auto.
Qed.

(** With every house number valid, and a destination to go to while a
    delivery is under way, [Tick] reaches one of its [return]s. *)
Lemma Tick_defined c w :
  (EnRoute c ->
   destination_set c /\
   waiting_houses_valid (snd (TryDeliverPizza (CurrentOrderNumber c) w))) ->
  (Idle c -> valid_houses w) ->
  exists out, Tick c w = Some out.
Proof.
  intros Hroute Hidle. destruct (bDeliveringOrder c) eqn:Hb.
  - destruct (Hroute Hb) as [Hd Hvalid]. unfold destination_set in Hd.
    destruct (CurrentDestination c) as [d|] eqn:Ed; [|congruence].
    destruct (f32_of_Z 300 <? GetDistanceToDestination w d) eqn:Hfar.
    + eexists. apply Tick_path_complete. eapply path_far; eassumption.
    + destruct (TryDeliverPizza (CurrentOrderNumber c) w) as [[] w1] eqn:Hdel.
      * eexists. apply Tick_path_complete.
        eapply path_delivered; try eassumption.
        apply rescan_loop_existsb. exact Hvalid.
      * eexists. apply Tick_path_complete. eapply path_retry; eassumption.
  - specialize (Hidle Hb). unfold valid_houses in Hidle.
    destruct (GetPizzaOrders w) as [|o0 Orders] eqn:HO.
    + eexists. apply Tick_path_complete. eapply path_no_orders; eassumption.
    + rewrite <- HO in Hidle.
      assert (HO' : GetPizzaOrders w <> []) by (rewrite HO; discriminate).
      destruct (SelectOrder_defined (terribleStatus c) w _ _ HO' Hidle)
        as (Order & status & Hsel).
      pose proof (SelectOrder_result _ _ _ _ _ _ Hsel) as [Hin _].
      pose proof (proj1 (Forall_forall _ _) Hidle Order Hin) as [Hp _].
      destruct (index (GetHouseLocations w) (HouseNumber Order)) as [p|] eqn:Ep;
        [|congruence].
      destruct (Z.eq_dec (GetPizzaAmount w) 0) as [Hamount|Hamount].
      * destruct (TryGrabPizza w) as [[] w1] eqn:Hgrab;
          eexists; apply Tick_path_complete;
          [eapply path_grabbed|eapply path_no_pizza]; eassumption.
      * eexists. apply Tick_path_complete. eapply path_loaded; eassumption.
Qed.

(** An idle tick follows the escalation rule, leaving the urgency as it
    was when the burning order is not preferred. *)
Lemma TickIdle_escalation c w c' w' calls :
  Idle c -> Tick c w = Some (c', w', calls) -> escalation (fun s => s) c w c'.
Proof.
  intros Hidle H ci cd ti bt oc ot pt Hc Ht Hoc Hot Hpt.
  pose proof (SelectOrder_eq (terribleStatus c) _ _ _ _ _ _ _ _ _ _ Hc Ht Hoc Hot Hpt)
    as Hsel.
  assert (HO : GetPizzaOrders w <> []).
  { intros E. rewrite E in Hoc. destruct ci; discriminate. }
  unfold Idle in Hidle. unfold Committed, Flagged, serves, EnRoute.
  apply Tick_path_sound in H.
  inversion H; subst; try congruence;
    match goal with Hs : SelectOrder _ _ _ _ = Some _ |- _ =>
      rewrite Hsel in Hs end;
    destruct (burning w bt pt && negb (terribleStatus c =? 2));
    match goal with Hs : Some _ = Some _ |- _ => injection Hs as <- <- end;
    cbn [terribleStatus bDeliveringOrder CurrentOrderNumber CurrentDestination
         set_terribleStatus];
    (split; [reflexivity|]); intros; try congruence; auto.
Qed.

(** A tick keeps the relation between phase, order number and destination,
    when no pending order is numbered -1. *)
Lemma Tick_phase_invariant c w c' w' calls :
  numbered_tick c w -> phase_invariant c -> Tick c w = Some (c', w', calls) ->
  phase_invariant c'.
Proof.
  unfold phase_invariant, activeOrder_set, destination_set, EnRoute.
  intros Hnum Hinv H. apply Tick_path_sound in H.
  assert (Hsel : forall Order status,
            SelectOrder (terribleStatus c) w (GetHouseLocations w) (GetPizzaOrders w)
              = Some (Order, status) -> OrderNumber Order <> -1).
  { intros Order status Hs. apply SelectOrder_result in Hs as [Hin _].
    exact (proj1 (Forall_forall _ _) Hnum Order Hin). }
  inversion H; subst;
    cbn [bDeliveringOrder CurrentOrderNumber CurrentDestination set_terribleStatus];
    try assumption.
  - destruct (lock_urgency_fields (GetDistanceToDestination w d) c) as (-> & -> & ->).
    assumption.
  - split; [split|]; intros; congruence.
  - split; [split|]; intros; [reflexivity|eauto|congruence].
  - split; [split|]; intros; [reflexivity|eauto|congruence].
Qed.

(** C1 (as amended): on an idle tick with pending orders, all of them for
    valid houses, the tick returns; if the time left of the order that burns
    first, minus its distance divided by the maximal speed, is below 5.0 and
    the urgency is not Committed, that order is the one served and the
    urgency becomes Flagged; otherwise the closest order is the one served
    and the urgency is left as it was.  The order served becomes the active
    order when the tick starts a delivery. *)
Theorem C1_escalation c w :
  Idle c -> GetPizzaOrders w <> [] -> valid_houses w ->
  exists c' w' calls,
    Tick c w = Some (c', w', calls) /\ escalation (fun s => s) c w c'.
Proof.
  intros Hidle _ Hvalid.
  destruct (Tick_defined c w) as [[[c' w'] calls] H].
  - unfold EnRoute, Idle in *. congruence.
  - auto.
  - exists c', w', calls. split; [exact H|]. eapply TickIdle_escalation; eassumption.
Qed.

(** A tick in which no pickup fails keeps the relation between phase and
    urgency. *)
Lemma Tick_urgency_invariant c w c' w' calls :
  pickup_succeeds c w -> urgency_invariant c -> Tick c w = Some (c', w', calls) ->
  urgency_invariant c'.
Proof.
  intros Hgrab (Hlevel & Hflag & Hidle) H.
  split; [eapply Tick_urgency_level; eassumption|].
  revert Hflag Hidle. unfold pickup_succeeds, Idle, EnRoute, Normal, Flagged, Committed in *.
  intros Hflag Hidle. apply Tick_path_sound in H.
  inversion H; subst; cbn [bDeliveringOrder terribleStatus]; auto.
  - destruct (lock_urgency_fields (GetDistanceToDestination w d) c) as (-> & _).
    split; [auto|congruence].
  - split; [destruct found; discriminate|destruct found; auto].
  - match goal with
    | Hg : TryGrabPizza w = (false, _) |- _ =>
        specialize (Hgrab ltac:(assumption) ltac:(assumption) ltac:(assumption));
        rewrite Hg in Hgrab; discriminate Hgrab
    end.
  - split; [auto|congruence].
  - split; [auto|congruence].
Qed.

(** C2 (as amended): in every state reachable by ticks in which no pickup
    fails, the urgency is Normal, Flagged or Committed, it is Flagged only
    while a delivery is under way, and while the controller is idle it is
    Normal or Committed. *)
Theorem C2_urgency_while_idle c :
  reachable_when pickup_succeeds c -> urgency_invariant c.
Proof.
  induction 1 as [|c w c' w' calls _ IH Hgrab Ht].
  - unfold urgency_invariant, urgency_level, Idle, EnRoute, Normal, Flagged. cbn.
    split; [auto|split]; [discriminate|auto].
  - eapply Tick_urgency_invariant; eassumption.
Qed.

(** C3 (as amended): in every state reachable through worlds whose pending
    orders are not numbered -1, an order is active exactly when a delivery
    is under way, and a delivery under way has a destination; every tick
    keeps this.  (The destination is not cleared when the delivery ends.) *)
Theorem C3_phase_invariant c :
  reachable_when numbered_tick c -> phase_invariant c.
Proof.
  induction 1 as [|c w c' w' calls _ IH Hnum Ht].
  - unfold phase_invariant, activeOrder_set, destination_set, EnRoute. cbn.
    split; [split|]; intros; congruence.
  - eapply Tick_phase_invariant; eassumption.
Qed.

(** C4: on a tick of a delivery that is not farther than 300 and whose
    delivery succeeds, the controller returns to idle with the pending
    orders scanned again: the urgency is Committed if some pending order's
    house still waits and lies at exactly the distance measured at the start
    of the tick, and Normal otherwise. *)
Theorem C4_recommit c w d w1 :
  EnRoute c -> CurrentDestination c = Some d ->
  (f32_of_Z 300 <? GetDistanceToDestination w d) = false ->
  TryDeliverPizza (CurrentOrderNumber c) w = (true, w1) ->
  waiting_houses_valid w1 ->
  exists c',
    Tick c w = Some (c', w1, [CallTryDeliverPizza (CurrentOrderNumber c)]) /\
    Idle c' /\
    terribleStatus c' =
      if existsb (colocated w1 (GetHouseLocations w1) (GetDistanceToDestination w d))
                 (GetPizzaOrders w1)
      then Committed else Normal.
Proof.
  intros Hb Hd Hfar Hdel Hvalid. eexists. split; [|split].
  - apply Tick_path_complete. eapply path_delivered; try eassumption.
    apply rescan_loop_existsb. exact Hvalid.
  - reflexivity.
  - reflexivity.
Qed.

(** C6 (as amended): on a tick of a delivery that is not farther than 300,
    whose delivery succeeds and after which no waiting house of a pending
    order lies at the measured distance, the controller is idle, has no
    active order and Normal urgency; the destination keeps its value. *)
Theorem C6_completion c w d w1 :
  EnRoute c -> CurrentDestination c = Some d ->
  (f32_of_Z 300 <? GetDistanceToDestination w d) = false ->
  TryDeliverPizza (CurrentOrderNumber c) w = (true, w1) ->
  waiting_houses_valid w1 ->
  existsb (colocated w1 (GetHouseLocations w1) (GetDistanceToDestination w d))
          (GetPizzaOrders w1) = false ->
  Tick c w =
    Some ({| bDeliveringOrder := false;
             CurrentOrderNumber := -1;
             CurrentDestination := Some d;
             terribleStatus := Normal |},
          w1, [CallTryDeliverPizza (CurrentOrderNumber c)]).
Proof.
  intros Hb Hd Hfar Hdel Hvalid Hnone.
  apply Tick_path_complete.
  apply (path_delivered c w d w1 false); try assumption.
  rewrite rescan_loop_existsb by exact Hvalid. rewrite Hnone. reflexivity.
Qed.

(** C7 (as amended): a tick makes one pass through its branches and issues
    at most two actions: nothing, one action, or one attempt (to grab a
    pizza, to deliver) followed by one move. *)
Theorem C7_calls c w c' w' calls :
  Tick c w = Some (c', w', calls) ->
  tick_calls calls /\ (length calls <= 2)%nat.
Proof.
  intros H. apply Tick_path_sound in H.
  inversion H; subst; cbn; auto.
Qed.


(** C9 (as amended): on a tick of a delivery that is not farther than 300
    and whose delivery fails, the controller tries the delivery, moves again
    towards the destination, and stays in the delivery with the same order
    and destination; the urgency is unchanged, except that Flagged becomes
    Committed when the distance is below 300. *)
Theorem C9_retry c w d w1 :
  EnRoute c -> CurrentDestination c = Some d ->
  (f32_of_Z 300 <? GetDistanceToDestination w d) = false ->
  TryDeliverPizza (CurrentOrderNumber c) w = (false, w1) ->
  exists c',
    Tick c w =
      Some (c', SetNewMoveDestination d w1,
            [CallTryDeliverPizza (CurrentOrderNumber c);
             CallSetNewMoveDestination d]) /\
    EnRoute c' /\
    CurrentOrderNumber c' = CurrentOrderNumber c /\
    CurrentDestination c' = Some d /\
    terribleStatus c' =
      if (terribleStatus c =? Flagged) &&
         (GetDistanceToDestination w d <? f32_of_Z 300)
      then Committed else terribleStatus c.
Proof.
  intros Hb Hd Hfar Hdel.
  exists (lock_urgency (GetDistanceToDestination w d) c).
  destruct (lock_urgency_fields (GetDistanceToDestination w d) c) as (E1 & E2 & E3).
  unfold EnRoute. rewrite E1, E2, E3, lock_urgency_status.
  repeat split; try assumption.
  apply Tick_path_complete. eapply path_retry; eassumption.
Qed.

(** C10: if every pending order names a house of the location table and of
    the deadline mapping - before the tick and after the delivery attempted
    in it - then every array access of the tick is in range: the tick
    returns a result.  (While a delivery is under way the destination has
    been assigned, as in every reachable state.) *)
Theorem C10_lookups_in_bounds c w :
  (EnRoute c -> destination_set c) ->
  valid_houses w ->
  valid_houses (snd (TryDeliverPizza (CurrentOrderNumber c) w)) ->
  exists c' w' calls, Tick c w = Some (c', w', calls).
Proof.
  intros Hd Hw Hw1. destruct (Tick_defined c w) as [[[c' w'] calls] H].
  - intros Hb. split; [auto|].
    unfold waiting_houses_valid. unfold valid_houses in Hw1.
    eapply Forall_impl; [|exact Hw1]. intros o [Ho _] _. exact Ho.
  - auto.
  - eauto.
Qed.

End Claims.

(** ** Runs of the controller in the small world *)

(** A world with a pizza in hand, or a pizza to grab, and with orders
    numbered from 0 on is tame. *)
Lemma tame_world c w :
  Forall (fun o => 0 <= OrderNumber o) (twOrders w) ->
  twPizzaAmount w <> 0 \/ twCanGrab w = true ->
  tame c w.
Proof.
  intros Hnum Hpizza. split.
  - unfold numbered_tick, numbered. cbn [GetPizzaOrders TestWorld_base].
    eapply Forall_impl; [|exact Hnum]. cbn beta. intros o Ho. lia.
  - intros _ _ Hamount. cbn [GetPizzaAmount TryGrabPizza TestWorld_base] in *.
    destruct Hpizza as [Hp|Hg]; [congruence|].
    unfold twGrab. rewrite Hg. reflexivity.
Qed.

Ltac tame_world :=
  apply tame_world; [repeat constructor; discriminate | (left; discriminate) || (right; reflexivity)].

(** The first tick in [world_twins] takes order 7, at Normal urgency. *)
Lemma reach_delivering_twins : reachable_when tame (delivering 7 100 Normal).
Proof.
  apply (reach_Tick tame ASimpleAIController world_twins _ world_twins
           [CallSetNewMoveDestination (house_at 100)]).
  - apply reach_constructor.
  - tame_world.
  - reflexivity.
Qed.

(** Its delivery leaves the controller idle with Committed urgency: the
    house of order 8 is as far away as the house just served. *)
Lemma reach_delivered_committed : reachable_when tame (delivered 100 Committed).
Proof.
  apply (reach_Tick tame (delivering 7 100 Normal) world_twins _
           (snd (twDeliver 7 world_twins)) [CallTryDeliverPizza 7]).
  - exact reach_delivering_twins.
  - tame_world.
  - reflexivity.
Qed.

(** The first tick in [world_burning] takes the burning order 8 and flags
    the urgency. *)
Lemma reach_flagged_200 : reachable_when tame (delivering 8 200 Flagged).
Proof.
  apply (reach_Tick tame ASimpleAIController (world_burning true) _
           (world_burning true) [CallSetNewMoveDestination (house_at 200)]).
  - apply reach_constructor.
  - tame_world.
  - reflexivity.
Qed.

Lemma reach_flagged_300 : reachable_when tame (delivering 8 300 Flagged).
Proof.
  apply (reach_Tick tame ASimpleAIController world_boundary _ world_boundary
           [CallSetNewMoveDestination (house_at 300)]).
  - apply reach_constructor.
  - tame_world.
  - reflexivity.
Qed.

Lemma reach_delivering_last : reachable_when tame (delivering 7 50 Normal).
Proof.
  apply (reach_Tick tame ASimpleAIController world_last_order _ world_last_order
           [CallSetNewMoveDestination (house_at 50)]).
  - apply reach_constructor.
  - tame_world.
  - reflexivity.
Qed.

Lemma reachable_of_tame (c : Controller) : reachable_when tame c -> reachable c.
Proof. apply reachable_when_weaken. trivial. Qed.

Lemma numbered_of_tame (c : Controller) :
  reachable_when tame c -> reachable_when numbered_tick c.
Proof. apply reachable_when_weaken. intros ? ? [H _]. exact H. Qed.

Lemma pickup_of_tame (c : Controller) :
  reachable_when tame c -> reachable_when pickup_succeeds c.
Proof. apply reachable_when_weaken. intros ? ? [_ H]. exact H. Qed.

Lemma valid_houses_world_twins : valid_houses world_twins.
Proof. repeat constructor; discriminate. Qed.

Lemma valid_houses_world_rush : valid_houses world_rush.
Proof. repeat constructor; discriminate. Qed.

Lemma valid_houses_world_burning canDeliver : valid_houses (world_burning canDeliver).
Proof. repeat constructor; discriminate. Qed.

(** ** The properties on runs of the small world *)

Local Open Scope float32_scope.

(** C1, as stated, fails: idle with Committed urgency (left by the last
    delivery), the controller meets the burning order 9; it serves the
    closest order 8, and the urgency stays Committed instead of being
    Normal. *)
Lemma C1_counterexample :
  ~ (forall (c : Controller) (w : TestWorld) c' w' calls,
       reachable c -> Idle c -> GetPizzaOrders w <> [] -> valid_houses w ->
       Tick c w = Some (c', w', calls) ->
       escalation (fun _ => Normal) c w c').
Proof.
  intros H.
  specialize (H (delivered 100 Committed) world_rush
                (delivering 8 100 Committed) (snd (twGrab world_rush))
                [CallTryGrabPizza; CallSetNewMoveDestination (house_at 100)]
                (reachable_of_tame _ reach_delivered_committed) eq_refl).
  specialize (H ltac:(discriminate) valid_houses_world_rush eq_refl).
  specialize (H 0%nat (f32_of_Z 100) 1%nat (f32_of_Z 12) (mkOrder 8 1) (mkOrder 9 2)
                (house_at 200) eq_refl eq_refl eq_refl eq_refl eq_refl).
  destruct H as [E _]. discriminate E.
Qed.

Lemma C1_witness :
  exists c' w' calls,
    Tick ASimpleAIController (world_burning true) = Some (c', w', calls) /\
    escalation (fun s => s) ASimpleAIController (world_burning true) c'.
Proof.
  apply (C1_escalation ASimpleAIController (world_burning true)).
  - reflexivity.
  - discriminate.
  - apply valid_houses_world_burning.
Defined.

(** C2, as stated, fails: after the delivery of order 7 in [world_twins]
    the controller is idle and its urgency is Committed. *)
Lemma C2_counterexample :
  ~ (forall c : Controller,
       reachable (World := TestWorld) c ->
       (terribleStatus c = Flagged \/ terribleStatus c = Committed -> EnRoute c) /\
       (Idle c -> terribleStatus c = Normal)).
Proof.
  intros H.
  destruct (H (delivered 100 Committed)
              (reachable_of_tame _ reach_delivered_committed)) as [_ E].
  specialize (E eq_refl). discriminate E.
Qed.

Lemma C2_witness : urgency_invariant (delivered 100 Committed).
Proof.
  apply (C2_urgency_while_idle (World := TestWorld) (delivered 100 Committed)).
  exact (pickup_of_tame _ reach_delivered_committed).
Defined.

(** C3, as stated, fails: after the delivery of order 7 the controller is
    idle, yet its destination still holds the house it went to. *)
Lemma C3_counterexample :
  ~ (forall c : Controller,
       reachable_when (World := TestWorld) numbered_tick c ->
       (activeOrder_set c <-> destination_set c) /\
       (destination_set c <-> EnRoute c)).
Proof.
  intros H.
  destruct (H (delivered 100 Committed) (numbered_of_tame _ reach_delivered_committed))
    as [_ [E _]].
  assert (Hset : destination_set (delivered 100 Committed)) by discriminate.
  specialize (E Hset). discriminate E.
Qed.

Lemma C3_witness : phase_invariant (delivered 100 Committed).
Proof.
  apply (C3_phase_invariant (World := TestWorld) (delivered 100 Committed)).
  exact (numbered_of_tame _ reach_delivered_committed).
Defined.

Lemma C4_witness :
  exists c',
    Tick (delivering 7 100 Normal) world_twins =
      Some (c', snd (twDeliver 7 world_twins), [CallTryDeliverPizza 7]) /\
    Idle c' /\
    terribleStatus c' =
      if existsb (colocated (snd (twDeliver 7 world_twins))
                    (GetHouseLocations (snd (twDeliver 7 world_twins)))
                    (GetDistanceToDestination world_twins (house_at 100)))
           (GetPizzaOrders (snd (twDeliver 7 world_twins)))
      then Committed else Normal.
Proof.
  apply (C4_recommit (delivering 7 100 Normal) world_twins (house_at 100)
           (snd (twDeliver 7 world_twins))).
  - reflexivity.
  - reflexivity.
  - reflexivity.
  - reflexivity.
  - repeat constructor; discriminate.
Defined.

(** C5 fails on the code: at a measured distance of exactly 300 the
    delivery is attempted, but a Flagged urgency is not made Committed. *)
Theorem C5_boundary_stays_Flagged :
  reachable (World := TestWorld) (delivering 8 300 Flagged) /\
  GetDistanceToDestination world_boundary (house_at 300) = f32_of_Z 300 /\
  Tick (delivering 8 300 Flagged) world_boundary =
    Some (delivering 8 300 Flagged, world_boundary,
          [CallTryDeliverPizza 8; CallSetNewMoveDestination (house_at 300)]).
Proof.
  split; [|split].
  - exact (reachable_of_tame _ reach_flagged_300).
  - reflexivity.
  - reflexivity.
Qed.

(** C6, as stated, fails: the last order is delivered and no house waits
    any more, yet the destination is not cleared. *)
Lemma C6_counterexample :
  ~ (forall (c : Controller) (w : TestWorld) d w1,
       reachable c -> EnRoute c -> CurrentDestination c = Some d ->
       (f32_of_Z 300 <? GetDistanceToDestination w d) = false ->
       TryDeliverPizza (CurrentOrderNumber c) w = (true, w1) ->
       waiting_houses_valid w1 ->
       existsb (colocated w1 (GetHouseLocations w1) (GetDistanceToDestination w d))
               (GetPizzaOrders w1) = false ->
       exists c' w' calls,
         Tick c w = Some (c', w', calls) /\
         Idle c' /\ ~ activeOrder_set c' /\ ~ destination_set c' /\
         terribleStatus c' = Normal).
Proof.
  intros H.
  destruct (H (delivering 7 50 Normal) world_last_order (house_at 50)
              (snd (twDeliver 7 world_last_order))
              (reachable_of_tame _ reach_delivering_last)
              eq_refl eq_refl eq_refl eq_refl (Forall_nil _) eq_refl)
    as (c' & w' & calls & Ht & _ & _ & Hd & _).
  injection Ht as <- _ _. apply Hd. discriminate.
Qed.

Lemma C6_witness :
  Tick (delivering 7 50 Normal) world_last_order =
    Some (delivered 50 Normal, snd (twDeliver 7 world_last_order),
          [CallTryDeliverPizza 7]).
Proof.
  apply (C6_completion (delivering 7 50 Normal) world_last_order (house_at 50)
           (snd (twDeliver 7 world_last_order))).
  - reflexivity.
  - reflexivity.
  - reflexivity.
  - reflexivity.
  - apply Forall_nil.
  - reflexivity.
Defined.

(** C7, as stated, fails: a failed delivery is followed by a move in the
    same tick, which makes two actions. *)
Lemma C7_counterexample :
  ~ (forall (c : Controller) (w : TestWorld) c' w' calls,
       reachable c -> Tick c w = Some (c', w', calls) ->
       (length calls <= 1)%nat).
Proof.
  intros H.
  specialize (H (delivering 8 200 Flagged) (world_burning false)
                (delivering 8 200 Committed) (world_burning false)
                [CallTryDeliverPizza 8; CallSetNewMoveDestination (house_at 200)]
                (reachable_of_tame _ reach_flagged_200) eq_refl).
  cbn in H. lia.
Qed.

Lemma C7_witness :
  tick_calls [CallTryDeliverPizza 8; CallSetNewMoveDestination (house_at 200)] /\
  (length [CallTryDeliverPizza 8; CallSetNewMoveDestination (house_at 200)] <= 2)%nat.
Proof.
  apply (C7_calls (delivering 8 200 Flagged) (world_burning false)
           (delivering 8 200 Committed) (world_burning false)).
  reflexivity.
Defined.



(** C9, as stated, fails: the delivery of the burning order fails 200 away
    from the house; the urgency, Flagged before, is Committed afterwards. *)
Lemma C9_counterexample :
  ~ (forall (c : Controller) (w : TestWorld) d w1,
       reachable c -> EnRoute c -> CurrentDestination c = Some d ->
       (f32_of_Z 300 <? GetDistanceToDestination w d) = false ->
       TryDeliverPizza (CurrentOrderNumber c) w = (false, w1) ->
       exists c' w' calls,
         Tick c w = Some (c', w', calls) /\
         In (CallSetNewMoveDestination d) calls /\
         EnRoute c' /\
         CurrentOrderNumber c' = CurrentOrderNumber c /\
         CurrentDestination c' = CurrentDestination c /\
         terribleStatus c' = terribleStatus c).
Proof.
  intros H.
  destruct (H (delivering 8 200 Flagged) (world_burning false) (house_at 200)
              (world_burning false)
              (reachable_of_tame _ reach_flagged_200)
              eq_refl eq_refl eq_refl eq_refl)
    as (c' & w' & calls & Ht & _ & _ & _ & _ & Hs).
  injection Ht as <- _ _. discriminate Hs.
Qed.

Lemma C9_witness :
  exists c',
    Tick (delivering 8 200 Flagged) (world_burning false) =
      Some (c', world_burning false,
            [CallTryDeliverPizza 8; CallSetNewMoveDestination (house_at 200)]) /\
    EnRoute c' /\
    CurrentOrderNumber c' = 8 /\
    CurrentDestination c' = Some (house_at 200) /\
    terribleStatus c' =
      if (Flagged =? Flagged) && (f32_of_Z 200 <? f32_of_Z 300)
      then Committed else Flagged.
Proof.
  exact (C9_retry (delivering 8 200 Flagged) (world_burning false) (house_at 200)
           (world_burning false) eq_refl eq_refl eq_refl eq_refl).
Defined.

Lemma C10_witness :
  exists c' w' calls, Tick (delivering 7 100 Normal) world_twins = Some (c', w', calls).
Proof.
  apply (C10_lookups_in_bounds (delivering 7 100 Normal) world_twins).
  - discriminate.
  - exact valid_houses_world_twins.
  - repeat constructor; discriminate.
Defined.

(** ** Further properties of [Tick] *)

Section MoreClaims.

Context {World : Type} {base : BaseAIController World}.

Local Open Scope float32_scope.

(** X1: a tick issues no action exactly when the controller is idle and no
    order is pending; the controller and the world are then left as they
    were. *)
Theorem X1_silent_tick c w c' w' calls :
  Tick c w = Some (c', w', calls) ->
  (calls = [] <-> Idle c /\ GetPizzaOrders w = []) /\
  (calls = [] -> c' = c /\ w' = w).
Proof.
  unfold Idle. intros H. apply Tick_path_sound in H.
  inversion H; subst; (split; [split|]); try discriminate; auto;
    intros [Hb HO]; congruence.
Qed.

(** X2: a delivery is attempted only for the order being delivered, and
    only when the destination is not farther than 300; an idle controller
    never attempts one. *)
Theorem X2_delivery_attempts c w c' w' calls n :
  Tick c w = Some (c', w', calls) -> In (CallTryDeliverPizza n) calls ->
  EnRoute c /\ n = CurrentOrderNumber c /\
  exists d, CurrentDestination c = Some d /\
            (f32_of_Z 300 <? GetDistanceToDestination w d) = false.
Proof.
  unfold EnRoute. intros H Hin. apply Tick_path_sound in H.
  inversion H; subst; cbn [In] in Hin;
    repeat match goal with
           | Hor : _ \/ _ |- _ => destruct Hor
           | Hf : False |- _ => destruct Hf
           | He : _ = CallTryDeliverPizza _ |- _ => inversion He; clear He; subst
           end; eauto.
Qed.

(** X3: while a delivery is under way the controller never turns to another
    order: a tick leaves the destination as it is, and the order number
    changes only to -1, when the delivery has succeeded. *)
Theorem X3_no_switch_while_delivering c w c' w' calls :
  EnRoute c -> Tick c w = Some (c', w', calls) ->
  CurrentDestination c' = CurrentDestination c /\
  (EnRoute c' -> CurrentOrderNumber c' = CurrentOrderNumber c) /\
  (Idle c' -> CurrentOrderNumber c' = -1 /\
              calls = [CallTryDeliverPizza (CurrentOrderNumber c)]).
Proof.
  unfold EnRoute, Idle. intros Hb H. apply Tick_path_sound in H.
  inversion H; subst; cbn [bDeliveringOrder CurrentOrderNumber CurrentDestination];
    try congruence.
  - repeat split; congruence.
  - destruct (lock_urgency_fields (GetDistanceToDestination w d) c) as (-> & -> & ->).
    repeat split; congruence.
  - repeat split; congruence.
Qed.

(** X4: the order an idle controller takes is a pending order, and the
    destination is the location of that order's house; the tick ends with
    the move towards it. *)
Theorem X4_taken_order_is_pending c w c' w' calls :
  Idle c -> Tick c w = Some (c', w', calls) -> EnRoute c' ->
  exists o p,
    In o (GetPizzaOrders w) /\
    CurrentOrderNumber c' = OrderNumber o /\
    index (GetHouseLocations w) (HouseNumber o) = Some p /\
    CurrentDestination c' = Some p /\
    (calls = [CallSetNewMoveDestination p] \/
     calls = [CallTryGrabPizza; CallSetNewMoveDestination p]).
Proof.
  unfold Idle, EnRoute. intros Hb H Hb'. apply Tick_path_sound in H.
  inversion H; subst; cbn [bDeliveringOrder set_terribleStatus] in *; try congruence;
    match goal with Hs : SelectOrder _ _ _ _ = Some _ |- _ =>
      apply SelectOrder_result in Hs as [Hin _] end;
    eexists _, _; repeat split; eauto.
Qed.

(** X5: with valid house numbers, an idle tick with pending orders returns,
    and it starts a delivery exactly when a pizza is in hand or the grab
    succeeds; otherwise the controller stays idle, with the order number and
    the destination it had, after the one failed grab. *)
Theorem X5_cargo_gate c w :
  Idle c -> GetPizzaOrders w <> [] -> valid_houses w ->
  exists c' w' calls,
    Tick c w = Some (c', w', calls) /\
    (EnRoute c' <-> pizza_available w) /\
    (Idle c' ->
     CurrentOrderNumber c' = CurrentOrderNumber c /\
     CurrentDestination c' = CurrentDestination c /\
     calls = [CallTryGrabPizza]).
Proof.
  intros Hidle HO Hvalid.
  destruct (Tick_defined c w) as [[[c' w'] calls] H].
  { unfold EnRoute, Idle in *. congruence. }
  { auto. }
  exists c', w', calls. split; [exact H|].
  unfold Idle, EnRoute, pizza_available in *. apply Tick_path_sound in H.
  inversion H; subst; cbn [bDeliveringOrder CurrentOrderNumber CurrentDestination
                           set_terribleStatus]; try congruence.
  - match goal with Hg : TryGrabPizza w = _ |- _ => rewrite Hg end. cbn [fst].
    split; [split|auto]; [congruence|]. intros [Ha|Hf]; congruence.
  - match goal with Hg : TryGrabPizza w = _ |- _ => rewrite Hg end. cbn [fst].
    split; [split|discriminate]; auto.
  - split; [split|discriminate]; auto.
Qed.

(** X6: the order an idle tick takes is a closest pending order - no
    pending order's house is strictly closer than the destination taken -
    unless the burning order is preferred: then the urgency is Flagged, it
    was not Committed, and the order taken is one with the least time left,
    for which the test of line 76 holds. *)
Theorem X6_taken_order_is_a_minimum c w c' w' calls :
  Idle c -> Tick c w = Some (c', w', calls) -> EnRoute c' ->
  exists o p,
    In o (GetPizzaOrders w) /\
    CurrentOrderNumber c' = OrderNumber o /\
    index (GetHouseLocations w) (HouseNumber o) = Some p /\
    CurrentDestination c' = Some p /\
    ((terribleStatus c' = terribleStatus c /\
      forall oj dj, In oj (GetPizzaOrders w) ->
        distance_of w (GetHouseLocations w) oj = Some dj ->
        (dj <? GetDistanceToDestination w p) = false) \/
     (terribleStatus c' = Flagged /\ terribleStatus c <> Committed /\
      exists t, timeLeft_of w o = Some t /\ burning w t p = true /\
        forall oj tj, In oj (GetPizzaOrders w) ->
          timeLeft_of w oj = Some tj -> (tj <? t) = false)).
Proof.
  unfold Idle, EnRoute, Flagged, Committed. intros Hb H Hb'.
  apply Tick_path_sound in H.
  assert (Hsel : forall Order status p,
            SelectOrder (terribleStatus c) w (GetHouseLocations w) (GetPizzaOrders w)
              = Some (Order, status) ->
            index (GetHouseLocations w) (HouseNumber Order) = Some p ->
            In Order (GetPizzaOrders w) /\
            ((status = terribleStatus c /\
              forall oj dj, In oj (GetPizzaOrders w) ->
                distance_of w (GetHouseLocations w) oj = Some dj ->
                (dj <? GetDistanceToDestination w p) = false) \/
             (status = 1 /\ terribleStatus c <> 2 /\
              exists t, timeLeft_of w Order = Some t /\ burning w t p = true /\
                forall oj tj, In oj (GetPizzaOrders w) ->
                  timeLeft_of w oj = Some tj -> (tj <? t) = false))).
  { intros Order status p Hs Hp.
    pose proof (SelectOrder_result _ _ _ _ _ _ Hs) as [Hin _]. split; [exact Hin|].
    apply SelectOrder_inv in Hs
      as (ci & cd & ti & bt & oc & ot & pt & Hc & Ht & Hoc & Hot & Hpt & Hs).
    rewrite closestOrder_of_first_min in Hc. rewrite terribleOrder_of_first_min in Ht.
    destruct (first_min_in _ _ _ _ Hc) as (oc' & Hoc' & Hkc).
    destruct (first_min_in _ _ _ _ Ht) as (ot' & Hot' & Hkt).
    assert (oc' = oc) by congruence. assert (ot' = ot) by congruence. subst oc' ot'.
    destruct (burning w bt pt) eqn:Hburn; cbn [andb] in Hs;
      [destruct (terribleStatus c =? 2) eqn:E; cbn [negb] in Hs|];
      injection Hs as -> ->.
    - left. split; [reflexivity|]. intros oj dj Hj Hdj.
      apply In_nth_error in Hj as [j Hj].
      unfold distance_of in Hkc. rewrite Hp in Hkc. injection Hkc as <-.
      eapply first_min_lower_bound; eassumption.
    - right. apply Z.eqb_neq in E. split; [reflexivity|]. split; [exact E|].
      exists bt. assert (p = pt) by congruence. subst p.
      split; [exact Hkt|]. split; [exact Hburn|]. intros oj tj Hj Htj.
      apply In_nth_error in Hj as [j Hj].
      eapply first_min_lower_bound; eassumption.
    - left. split; [reflexivity|]. intros oj dj Hj Hdj.
      apply In_nth_error in Hj as [j Hj].
      unfold distance_of in Hkc. rewrite Hp in Hkc. injection Hkc as <-.
      eapply first_min_lower_bound; eassumption. }
  inversion H; subst; cbn [bDeliveringOrder set_terribleStatus] in *; try congruence;
    match goal with
    | Hs : SelectOrder _ _ _ _ = Some _, Hp : index _ _ = Some _ |- _ =>
        destruct (Hsel _ _ _ Hs Hp) as [Hin Hmin]
    end;
    eexists _, _; cbn [CurrentOrderNumber CurrentDestination terribleStatus];
    repeat (split; [solve [eauto]|]); exact Hmin.
Qed.

(** X7: every move a tick issues goes to the destination the controller
    holds after the tick. *)
Theorem X7_moves_go_to_destination c w c' w' calls p :
  Tick c w = Some (c', w', calls) -> In (CallSetNewMoveDestination p) calls ->
  CurrentDestination c' = Some p.
Proof.
  intros H Hin. apply Tick_path_sound in H.
  inversion H; subst; cbn [In CurrentDestination] in *;
    repeat match goal with
           | Hor : _ \/ _ |- _ => destruct Hor
           | Hf : False |- _ => destruct Hf
           | He : _ = CallSetNewMoveDestination _ |- _ => inversion He; clear He; subst
           end; try assumption; try reflexivity.
  destruct (lock_urgency_fields (GetDistanceToDestination w p) c) as (_ & _ & ->).
  assumption.
Qed.

(** X9: Committed urgency is a latch: a tick leaves it Committed, except
    the tick of a successful delivery. *)
Theorem X9_committed_latch c w c' w' calls :
  terribleStatus c = Committed -> Tick c w = Some (c', w', calls) ->
  terribleStatus c' = Committed \/
  (EnRoute c /\ Idle c' /\ calls = [CallTryDeliverPizza (CurrentOrderNumber c)]).
Proof.
  unfold Committed, EnRoute, Idle. intros Hs H. apply Tick_path_sound in H.
  inversion H; subst; cbn [terribleStatus bDeliveringOrder set_terribleStatus]; auto;
    try (match goal with Hsel : SelectOrder _ _ _ _ = Some _ |- _ =>
           apply SelectOrder_result in Hsel as [_ [->|[_ Hne]]] end; auto; congruence).
  left. rewrite lock_urgency_status, Hs. reflexivity.
Qed.

End MoreClaims.

(** ** The further properties on runs of the small world *)

Local Open Scope float32_scope.

Lemma X1_witness :
  (@nil Call = [] <-> Idle ASimpleAIController /\ GetPizzaOrders world_quiet = []) /\
  (@nil Call = [] -> ASimpleAIController = ASimpleAIController /\ world_quiet = world_quiet).
Proof.
  apply (X1_silent_tick ASimpleAIController world_quiet ASimpleAIController world_quiet []).
  reflexivity.
Defined.

Lemma X2_witness :
  EnRoute (delivering 8 200 Flagged) /\
  8 = CurrentOrderNumber (delivering 8 200 Flagged) /\
  exists d, CurrentDestination (delivering 8 200 Flagged) = Some d /\
            (f32_of_Z 300 <? GetDistanceToDestination (world_burning false) d) = false.
Proof.
  apply (X2_delivery_attempts (delivering 8 200 Flagged) (world_burning false)
           (delivering 8 200 Committed) (world_burning false)
           [CallTryDeliverPizza 8; CallSetNewMoveDestination (house_at 200)] 8).
  - reflexivity.
  - left. reflexivity.
Defined.

Lemma X3_witness :
  CurrentDestination (delivering 8 200 Committed)
    = CurrentDestination (delivering 8 200 Flagged) /\
  (EnRoute (delivering 8 200 Committed) ->
   CurrentOrderNumber (delivering 8 200 Committed)
     = CurrentOrderNumber (delivering 8 200 Flagged)) /\
  (Idle (delivering 8 200 Committed) ->
   CurrentOrderNumber (delivering 8 200 Committed) = -1 /\
   [CallTryDeliverPizza 8; CallSetNewMoveDestination (house_at 200)]
     = [CallTryDeliverPizza (CurrentOrderNumber (delivering 8 200 Flagged))]).
Proof.
  apply (X3_no_switch_while_delivering (delivering 8 200 Flagged) (world_burning false)
           (delivering 8 200 Committed) (world_burning false)
           [CallTryDeliverPizza 8; CallSetNewMoveDestination (house_at 200)]).
  - reflexivity.
  - reflexivity.
Defined.

Lemma X4_witness :
  exists o p,
    In o (GetPizzaOrders world_twins) /\
    CurrentOrderNumber (delivering 7 100 Normal) = OrderNumber o /\
    index (GetHouseLocations world_twins) (HouseNumber o) = Some p /\
    CurrentDestination (delivering 7 100 Normal) = Some p /\
    ([CallSetNewMoveDestination (house_at 100)] = [CallSetNewMoveDestination p] \/
     [CallSetNewMoveDestination (house_at 100)]
       = [CallTryGrabPizza; CallSetNewMoveDestination p]).
Proof.
  apply (X4_taken_order_is_pending ASimpleAIController world_twins
           (delivering 7 100 Normal) world_twins
           [CallSetNewMoveDestination (house_at 100)]).
  - reflexivity.
  - reflexivity.
  - reflexivity.
Defined.

Lemma X5_witness :
  exists c' w' calls,
    Tick ASimpleAIController world_no_pizza = Some (c', w', calls) /\
    (EnRoute c' <-> pizza_available world_no_pizza) /\
    (Idle c' ->
     CurrentOrderNumber c' = CurrentOrderNumber ASimpleAIController /\
     CurrentDestination c' = CurrentDestination ASimpleAIController /\
     calls = [CallTryGrabPizza]).
Proof.
  apply (X5_cargo_gate ASimpleAIController world_no_pizza).
  - reflexivity.
  - discriminate.
  - repeat constructor; discriminate.
Defined.

Lemma X6_witness :
  exists o p,
    In o (GetPizzaOrders world_far_twins) /\
    CurrentOrderNumber (delivering 9 100 Normal) = OrderNumber o /\
    index (GetHouseLocations world_far_twins) (HouseNumber o) = Some p /\
    CurrentDestination (delivering 9 100 Normal) = Some p /\
    ((terribleStatus (delivering 9 100 Normal) = terribleStatus ASimpleAIController /\
      forall oj dj, In oj (GetPizzaOrders world_far_twins) ->
        distance_of world_far_twins (GetHouseLocations world_far_twins) oj = Some dj ->
        (dj <? GetDistanceToDestination world_far_twins p) = false) \/
     (terribleStatus (delivering 9 100 Normal) = Flagged /\
      terribleStatus ASimpleAIController <> Committed /\
      exists t, timeLeft_of world_far_twins o = Some t /\
        burning world_far_twins t p = true /\
        forall oj tj, In oj (GetPizzaOrders world_far_twins) ->
          timeLeft_of world_far_twins oj = Some tj -> (tj <? t) = false)).
Proof.
  apply (X6_taken_order_is_a_minimum ASimpleAIController world_far_twins
           (delivering 9 100 Normal) world_far_twins
           [CallSetNewMoveDestination (house_at 100)]).
  - reflexivity.
  - reflexivity.
  - reflexivity.
Defined.

Lemma X7_witness :
  CurrentDestination (delivering 8 200 Committed) = Some (house_at 200).
Proof.
  apply (X7_moves_go_to_destination (delivering 8 200 Flagged) (world_burning false)
           (delivering 8 200 Committed) (world_burning false)
           [CallTryDeliverPizza 8; CallSetNewMoveDestination (house_at 200)]
           (house_at 200)).
  - reflexivity.
  - right. left. reflexivity.
Defined.

Lemma X9_witness :
  terribleStatus (delivering 8 100 Committed) = Committed \/
  (EnRoute (delivered 100 Committed) /\ Idle (delivering 8 100 Committed) /\
   [CallTryGrabPizza; CallSetNewMoveDestination (house_at 100)]
     = [CallTryDeliverPizza (CurrentOrderNumber (delivered 100 Committed))]).
Proof.
  apply (X9_committed_latch (delivered 100 Committed) world_rush
           (delivering 8 100 Committed) (snd (twGrab world_rush))).
  - reflexivity.
  - reflexivity.
Defined.

(** * Properties of the classes of Lesson_1 *)

Module Lesson_1_Facts.

Import Lesson_1.

Local Open Scope float32_scope.
Local Infix "+" := f32_add : float32_scope.

(** ** The store of actors *)

Lemma store_length level : forall p a, length (store level p a) = length level.
Proof.
  induction level as [|a0 level IH]; intros [|p] a; simpl; auto.
Qed.

Lemma deref_store_same level : forall p a a0,
  deref level p = Some a0 -> deref (store level p a) p = Some a.
Proof.
  unfold deref. induction level as [|a1 level IH]; intros [|p] a a0; simpl;
    try discriminate; eauto.
Qed.

Lemma deref_store_other level : forall p q a,
  p <> q -> deref (store level p a) q = deref level q.
Proof.
  unfold deref. induction level as [|a1 level IH]; intros [|p] [|q] a Hpq; simpl;
    try reflexivity; try congruence.
  apply IH. congruence.
Qed.

Lemma store_unchanged level : forall p a,
  deref level p = Some a -> store level p a = level.
Proof.
  unfold deref. induction level as [|a1 level IH]; intros [|p] a; simpl;
    try discriminate.
  - intros [= ->]. reflexivity.
  - intros H. f_equal. auto.
Qed.

Lemma store_store level : forall p a b,
  store (store level p a) p b = store level p b.
Proof.
  induction level as [|a0 level IH]; intros [|p] a b; simpl; try reflexivity.
  f_equal. apply IH.
Qed.

Lemma deref_valid level p : deref level p <> None <-> (p < length level)%nat.
Proof. unfold deref. apply nth_error_Some. Qed.

(** ** [CollectBatteries] *)

(** The loop leaves an actor as it is, or it is a collectable battery among
    [CollectedActors] and ends up spent. *)
Lemma collect_loop_actors CollectedActors : forall level BatteryPower level' BatteryPower',
  ALesson_1Character.collect_loop CollectedActors level BatteryPower
    = Some (level', BatteryPower') ->
  length level' = length level /\
  forall q,
    deref level' q = deref level q \/
    (In q CollectedActors /\
     exists b, deref level q = Some (Battery b) /\ collectable (Battery b) = true /\
               deref level' q = Some (Battery (spent b))).
Proof.
  induction CollectedActors as [|p rest IH]; simpl; intros level bp level' bp' H.
  - injection H as <- <-. auto.
  - destruct (deref level p) as [a|] eqn:Hp; [|discriminate].
    assert (Hskip : ALesson_1Character.collect_loop rest level bp = Some (level', bp') ->
              length level' = length level /\
              forall q, deref level' q = deref level q \/
                (In q (p :: rest) /\
                 exists b, deref level q = Some (Battery b) /\
                           collectable (Battery b) = true /\
                           deref level' q = Some (Battery (spent b)))).
    { intros H'. apply IH in H' as [Hlen Hq]. split; [assumption|].
      intros q. destruct (Hq q) as [|[Hin Hb]]; [auto|]. right. split; [now right|auto]. }
    destruct a as [b| |]; [|auto|auto].
    destruct (negb (ABatteryPickup.bPendingKill b) && ABatteryPickup.bIsActive b)
      eqn:Hc; [|auto].
    apply IH in H as [Hlen Hq]. rewrite store_length in Hlen. split; [assumption|].
    intros q. destruct (Nat.eq_dec p q) as [<-|Hpq].
    + right. split; [now left|]. exists b. split; [assumption|]. split; [exact Hc|].
      destruct (Hq p) as [E|(_ & b2 & E & Hc2 & _)].
      * rewrite E. eapply deref_store_same; eassumption.
      * rewrite (deref_store_same _ _ _ _ Hp) in E. injection E as <-.
        discriminate Hc2.
    + destruct (Hq q) as [E|(Hin & b2 & E & Hc2 & E')].
      * left. rewrite E. now apply deref_store_other.
      * right. split; [now right|]. exists b2.
        rewrite deref_store_other in E by assumption. auto.
Qed.

(** After the loop none of [CollectedActors] is collectable. *)
Lemma collect_loop_none_left CollectedActors : forall level BatteryPower level' BatteryPower',
  ALesson_1Character.collect_loop CollectedActors level BatteryPower
    = Some (level', BatteryPower') ->
  forall q a, In q CollectedActors -> deref level' q = Some a -> collectable a = false.
Proof.
  induction CollectedActors as [|p rest IH]; simpl; intros level bp level' bp' H q a Hin Hq.
  - destruct Hin.
  - destruct (deref level p) as [a0|] eqn:Hp; [|discriminate].
    assert (Hstep : exists level2 bp2,
              ALesson_1Character.collect_loop rest level2 bp2 = Some (level', bp') /\
              exists a2, deref level2 p = Some a2 /\ collectable a2 = false).
    { destruct a0 as [b| |].
      - destruct (negb (ABatteryPickup.bPendingKill b) && ABatteryPickup.bIsActive b)
          eqn:Hc.
        + eexists _, _. split; [exact H|]. eexists. split.
          * eapply deref_store_same; eassumption.
          * reflexivity.
        + eexists _, _. split; [exact H|]. exists (Battery b). auto.
      - eexists _, _. split; [exact H|]. eexists. split; [eassumption|reflexivity].
      - eexists _, _. split; [exact H|]. eexists. split; [eassumption|reflexivity]. }
    destruct Hstep as (level2 & bp2 & Hrest & a2 & Hp2 & Hc2).
    destruct Hin as [<-|Hin]; [|eapply IH; eassumption].
    apply collect_loop_actors in Hrest as [_ Hact].
    destruct (Hact p) as [E|(_ & b & _ & _ & E)].
    + congruence.
    + rewrite E in Hq. injection Hq as <-. reflexivity.
Qed.

(** Where nothing is collectable the loop changes nothing. *)
Lemma collect_loop_nothing CollectedActors level BatteryPower :
  (forall q, In q CollectedActors ->
     exists a, deref level q = Some a /\ collectable a = false) ->
  ALesson_1Character.collect_loop CollectedActors level BatteryPower
    = Some (level, BatteryPower).
Proof.
  induction CollectedActors as [|p rest IH]; simpl; intros Hall; [reflexivity|].
  destruct (Hall p) as (a & -> & Hc); [now left|].
  destruct a as [b| |]; simpl in Hc; try rewrite Hc; apply IH; auto.
Qed.

(** The loop reaches its end only if its pointers lead somewhere. *)
Lemma collect_loop_valid CollectedActors : forall level BatteryPower level' BatteryPower',
  ALesson_1Character.collect_loop CollectedActors level BatteryPower
    = Some (level', BatteryPower') ->
  forall q, In q CollectedActors -> (q < length level)%nat.
Proof.
  induction CollectedActors as [|p rest IH]; simpl; intros level bp level' bp' H q Hin.
  - destruct Hin.
  - destruct (deref level p) as [a|] eqn:Hp; [|discriminate].
    destruct Hin as [<-|Hin].
    + apply deref_valid. congruence.
    + destruct a as [b| |];
        [destruct (negb (ABatteryPickup.bPendingKill b) && ABatteryPickup.bIsActive b)|
        |];
        pose proof (IH _ _ _ _ H q Hin) as Hq; rewrite ?store_length in Hq; exact Hq.
Qed.

(** X10: a second sweep right after a sweep collects nothing: it leaves the
    level and the character as the first sweep left them and raises no
    [PowerUp]. *)
Theorem X10_second_sweep_collects_nothing CurrentState CollectedActors level ch
    level' ch' events :
  ALesson_1Character.CollectBatteries CurrentState CollectedActors level ch
    = Some (level', ch', events) ->
  ALesson_1Character.CollectBatteries CurrentState CollectedActors level' ch'
    = Some (level', ch', []).
Proof.
  unfold ALesson_1Character.CollectBatteries.
  destruct (ELesson_1PlayState_eqb CurrentState EGameOver).
  - intros [= <- <- _]. reflexivity.
  - destruct (ALesson_1Character.collect_loop CollectedActors level (f32_of_Z 0))
      as [[level1 bp]|] eqn:Hloop; [|discriminate].
    intros H. assert (level' = level1) as ->.
    { destruct (f32_of_Z 0 <? bp); congruence. }
    rewrite collect_loop_nothing; [reflexivity|].
    intros q Hin. pose proof (collect_loop_actors _ _ _ _ _ Hloop) as [Hlen _].
    pose proof (collect_loop_valid _ _ _ _ _ Hloop q Hin) as Hq.
    rewrite <- Hlen in Hq. apply deref_valid in Hq.
    destruct (deref level1 q) as [a|] eqn:E; [|congruence].
    exists a. split; [reflexivity|]. eapply collect_loop_none_left; eassumption.
Qed.

(** What a sweep does to the actors and to the character. *)
Lemma CollectBatteries_frame CurrentState CollectedActors level ch level' ch' events :
  ALesson_1Character.CollectBatteries CurrentState CollectedActors level ch
    = Some (level', ch', events) ->
  length level' = length level /\
  (forall q,
     deref level' q = deref level q \/
     (CurrentState <> EGameOver /\ In q CollectedActors /\
      exists b, deref level q = Some (Battery b) /\ collectable (Battery b) = true /\
                deref level' q = Some (Battery (spent b)))) /\
  ALesson_1Character.SpeedFactor ch' = ALesson_1Character.SpeedFactor ch /\
  ALesson_1Character.BaseSpeed ch' = ALesson_1Character.BaseSpeed ch /\
  ALesson_1Character.MaxWalkSpeed ch' = ALesson_1Character.MaxWalkSpeed ch /\
  (CurrentState = EGameOver -> level' = level /\ ch' = ch /\ events = []) /\
  ((events = [] /\ ch' = ch) \/
   exists BatteryPower,
     events = [PowerUp BatteryPower] /\ (f32_of_Z 0 <? BatteryPower) = true /\
     ch' = ALesson_1Character.set_PowerLevel
             (ALesson_1Character.PowerLevel ch + BatteryPower) ch).
Proof.
  unfold ALesson_1Character.CollectBatteries.
  destruct (ELesson_1PlayState_eqb CurrentState EGameOver) eqn:Hst.
  - intros [= <- <- <-]. repeat split; auto.
  - destruct (ALesson_1Character.collect_loop CollectedActors level (f32_of_Z 0))
      as [[level1 bp]|] eqn:Hloop; [|discriminate].
    apply collect_loop_actors in Hloop as [Hlen Hact].
    assert (Hne : CurrentState <> EGameOver) by (intros ->; discriminate).
    destruct (f32_of_Z 0 <? bp) eqn:Hbp; intros [= <- <- <-];
      (split; [assumption|]);
      (split; [intros q; destruct (Hact q) as [|[Hin Hb']]; auto|]);
      repeat (split; [solve [reflexivity | intros E; congruence]|]).
    + right. exists bp. auto.
    + left. auto.
Qed.

(** X11: a sweep touches nothing but the collectable batteries among the
    overlapping actors: every other actor of the level stays as it is, and a
    collected battery keeps its power level and ends up inactive and
    destroyed.  Of the character only the power level can change: it grows
    by the power collected, with one [PowerUp] of that amount, if that
    amount is above zero; otherwise the character stays as it is and no
    event is raised.  When the game is over nothing changes at all. *)
Theorem X11_sweep_frame CurrentState CollectedActors level ch level' ch' events :
  ALesson_1Character.CollectBatteries CurrentState CollectedActors level ch
    = Some (level', ch', events) ->
  length level' = length level /\
  (forall q,
     deref level' q = deref level q \/
     (CurrentState <> EGameOver /\ In q CollectedActors /\
      exists b, deref level q = Some (Battery b) /\ collectable (Battery b) = true /\
                deref level' q = Some (Battery (spent b)))) /\
  ALesson_1Character.SpeedFactor ch' = ALesson_1Character.SpeedFactor ch /\
  ALesson_1Character.BaseSpeed ch' = ALesson_1Character.BaseSpeed ch /\
  ALesson_1Character.MaxWalkSpeed ch' = ALesson_1Character.MaxWalkSpeed ch /\
  (CurrentState = EGameOver -> level' = level /\ ch' = ch /\ events = []) /\
  ((events = [] /\ ch' = ch) \/
   exists BatteryPower,
     events = [PowerUp BatteryPower] /\ (f32_of_Z 0 <? BatteryPower) = true /\
     ch' = ALesson_1Character.set_PowerLevel
             (ALesson_1Character.PowerLevel ch + BatteryPower) ch).
Proof. apply CollectBatteries_frame. Qed.

(** X12: after a sweep made while the game is not over, no overlapping
    actor is a battery that could still be collected. *)
Theorem X12_sweep_leaves_nothing_collectable CurrentState CollectedActors level ch
    level' ch' events :
  CurrentState <> EGameOver ->
  ALesson_1Character.CollectBatteries CurrentState CollectedActors level ch
    = Some (level', ch', events) ->
  forall q, In q CollectedActors ->
    exists a, deref level' q = Some a /\ collectable a = false.
Proof.
  unfold ALesson_1Character.CollectBatteries. intros Hne.
  destruct (ELesson_1PlayState_eqb CurrentState EGameOver) eqn:Hst.
  { destruct CurrentState; try discriminate. congruence. }
  destruct (ALesson_1Character.collect_loop CollectedActors level (f32_of_Z 0))
    as [[level1 bp]|] eqn:Hloop; [|discriminate].
  intros H q Hin. assert (level' = level1) as ->.
  { destruct (f32_of_Z 0 <? bp); congruence. }
  pose proof (collect_loop_actors _ _ _ _ _ Hloop) as [Hlen _].
  pose proof (collect_loop_valid _ _ _ _ _ Hloop q Hin) as Hq.
  rewrite <- Hlen in Hq. apply deref_valid in Hq.
  destruct (deref level1 q) as [a|] eqn:E; [|congruence].
  exists a. split; [reflexivity|]. eapply collect_loop_none_left; eassumption.
Qed.

(** ** The game mode and its spawn volumes *)

Lemma for_each_volume_result f volumes :
  (forall v, f (f v) = f v) ->
  forall level level',
    ALesson_1GameMode.for_each_volume f volumes level = Some level' ->
    length level' = length level /\
    forall q,
      (In q volumes ->
       exists v, deref level q = Some (SpawnVolume v) /\
                 deref level' q = Some (SpawnVolume (f v))) /\
      (~ In q volumes -> deref level' q = deref level q).
Proof.
  intros Hf. induction volumes as [|p rest IH]; simpl; intros level level' H.
  - injection H as <-. split; [reflexivity|]. intros q. split; [intros []|reflexivity].
  - destruct (deref level p) as [[b|v|]|] eqn:Hp; try discriminate.
    apply IH in H as [Hlen Hq]. rewrite store_length in Hlen. split; [assumption|].
    intros q. destruct (Hq q) as [Hin Hout]. destruct (Nat.eq_dec p q) as [<-|Hpq].
    + split; [|tauto]. intros _. exists v. split; [assumption|].
      destruct (in_dec Nat.eq_dec p rest) as [Hr|Hr].
      * destruct (Hin Hr) as (v2 & E & ->).
        rewrite (deref_store_same _ _ _ _ Hp) in E. injection E as <-.
        rewrite Hf. reflexivity.
      * rewrite (Hout Hr). eapply deref_store_same; eassumption.
    + rewrite deref_store_other in Hin, Hout by assumption. split.
      * intros [E|Hr]; [congruence|auto].
      * intros Hn. apply Hout. tauto.
Qed.

Lemma for_each_volume_defined f volumes : forall level,
  (forall p, In p volumes -> exists v, deref level p = Some (SpawnVolume v)) ->
  exists level', ALesson_1GameMode.for_each_volume f volumes level = Some level'.
Proof.
  induction volumes as [|p rest IH]; simpl; intros level Hall; [eauto|].
  destruct (Hall p) as (v & Hp); [now left|]. rewrite Hp. apply IH.
  intros q Hq. destruct (Nat.eq_dec p q) as [<-|Hpq].
  - exists (f v). eapply deref_store_same; eassumption.
  - rewrite deref_store_other by assumption. auto.
Qed.

Lemma for_each_volume_fixed f volumes level :
  (forall p, In p volumes ->
     exists v, deref level p = Some (SpawnVolume v) /\ f v = v) ->
  ALesson_1GameMode.for_each_volume f volumes level = Some level.
Proof.
  induction volumes as [|p rest IH]; simpl; intros Hall; [reflexivity|].
  destruct (Hall p) as (v & Hp & Hv); [now left|]. rewrite Hp, Hv.
  rewrite store_unchanged by assumption. auto.
Qed.

(** Switching exactly the volumes of the level. *)
Lemma for_each_volume_switched f volumes level level' :
  (forall v, f (f v) = f v) ->
  (forall p, In p volumes <-> exists v, deref level p = Some (SpawnVolume v)) ->
  ALesson_1GameMode.for_each_volume f volumes level = Some level' ->
  switched f level level'.
Proof.
  intros Hf Hreg H. apply (for_each_volume_result f volumes Hf) in H as [Hlen Hq].
  split; [assumption|]. intros p. destruct (Hq p) as [Hin Hout].
  destruct (in_dec Nat.eq_dec p volumes) as [Hp|Hp].
  - destruct (Hin Hp) as (v & -> & ->). reflexivity.
  - rewrite (Hout Hp). destruct (deref level p) as [[b|v|]|] eqn:E; try reflexivity.
    exfalso. apply Hp. apply Hreg. eauto.
Qed.

Lemma switched_same_volumes f level level' :
  switched f level level' -> same_volumes level level'.
Proof.
  intros [_ H] p. rewrite H. destruct (deref level p) as [[b|v|]|]; reflexivity.
Qed.

Lemma same_volumes_exists level level' p :
  same_volumes level level' ->
  (exists v, deref level' p = Some (SpawnVolume v)) <->
  (exists v, deref level p = Some (SpawnVolume v)).
Proof.
  intros H. specialize (H p).
  destruct (deref level p) as [[b|v|]|], (deref level' p) as [[b'|v'|]|];
    try discriminate; split; intros [v0 E]; try discriminate; eauto.
Qed.

Lemma GetAllSpawnVolumes_spec level : forall k p,
  In p (GetAllSpawnVolumes level k) <->
  (k <= p)%nat /\ exists v, deref level (p - k)%nat = Some (SpawnVolume v).
Proof.
  unfold deref. induction level as [|a level IH]; intros k p.
  - simpl. split; [intros []|]. intros [_ [v E]]. destruct (p - k)%nat; discriminate.
  - assert (Hrest : In p (GetAllSpawnVolumes level (S k)) <->
                    (k < p)%nat /\
                    exists v, nth_error (a :: level) (p - k)%nat = Some (SpawnVolume v)).
    { rewrite IH. split.
      - intros [Hk [v E]]. split; [lia|]. exists v.
        replace (p - k)%nat with (S (p - S k)) by lia. exact E.
      - intros [Hk [v E]]. split; [lia|]. exists v.
        replace (p - k)%nat with (S (p - S k)) in E by lia. exact E. }
    assert (Hhead : (k <= p)%nat ->
                    (p - k = 0)%nat <-> p = k) by lia.
    destruct a as [b|v0|]; simpl GetAllSpawnVolumes; cbn [In]; rewrite ?Hrest.
    + split; [intros [Hk He]; split; [lia|assumption]|].
      intros [Hk [v E]]. split; [|eauto].
      destruct (p - k)%nat eqn:D; [discriminate|lia].
    + split.
      * intros [<-|[Hk He]]; [|split; [lia|assumption]].
        split; [lia|]. exists v0. rewrite Nat.sub_diag. reflexivity.
      * intros [Hk [v E]]. destruct (Nat.eq_dec k p) as [|Hne]; [auto|right].
        split; [lia|eauto].
    + split; [intros [Hk He]; split; [lia|assumption]|].
      intros [Hk [v E]]. split; [|eauto].
      destruct (p - k)%nat eqn:D; [discriminate|lia].
Qed.



Lemma DisableSpawning_twice v :
  ASpawnVolume.DisableSpawning (ASpawnVolume.DisableSpawning v)
    = ASpawnVolume.DisableSpawning v.
Proof. reflexivity. Qed.

Lemma DisableSpawning_disabled v :
  ASpawnVolume.bSpawningEnabled v = false -> ASpawnVolume.DisableSpawning v = v.
Proof. destruct v. simpl. intros ->. reflexivity. Qed.


(** ** The game as a whole *)

Section WithEngine.

Context {engine : Engine} {world : UWorld}.

Lemma all_registered_same_volumes game game' :
  ALesson_1GameMode.SpawnVolumeActors (MyGameMode game')
    = ALesson_1GameMode.SpawnVolumeActors (MyGameMode game) ->
  same_volumes (TheLevel game) (TheLevel game') ->
  all_registered game -> all_registered game'.
Proof.
  intros Hlist Hsame Hreg p. rewrite Hlist, (Hreg p).
  symmetry. apply same_volumes_exists. exact Hsame.
Qed.

(** X14: when the character's power level is not above 0.05 and the game
    mode remembers exactly the spawn volumes of the level, the game mode's
    tick reaches its end, asks for the cinematic mode once and leaves the
    game over: the state is EGameOver, every spawn volume is disabled, and
    the character and all other actors are as they were. *)
Theorem X14_out_of_power game DeltaSeconds r :
  all_registered game ->
  ALesson_1GameMode.has_power (MyCharacter game) = false ->
  exists game',
    run (GameMode_Tick DeltaSeconds) game r
      = Some (game', [SetCinematicMode true true true], r) /\
    game_over game' /\
    MyCharacter game' = MyCharacter game /\
    switched ASpawnVolume.DisableSpawning (TheLevel game) (TheLevel game').
Proof.
  intros Hreg Hpow. unfold run, ALesson_1GameMode.Tick. rewrite Hpow.
  unfold ALesson_1GameMode.SetCurrentState.
  cbn [ALesson_1GameMode.CurrentState ALesson_1GameMode.HandleNewState
       ALesson_1GameMode.SpawnVolumeActors ALesson_1GameMode.DecayRate].
  destruct (for_each_volume_defined ASpawnVolume.DisableSpawning
              (ALesson_1GameMode.SpawnVolumeActors (MyGameMode game)) (TheLevel game))
    as [level' Hloop].
  { intros p Hp. apply Hreg. exact Hp. }
  rewrite Hloop. eexists. split; [reflexivity|].
  pose proof (for_each_volume_switched _ _ _ _ DisableSpawning_twice Hreg Hloop) as Hsw.
  split; [|split; [reflexivity|exact Hsw]].
  split; [reflexivity|]. split; [exact Hpow|]. split.
  - eapply all_registered_same_volumes; [| |exact Hreg]; [reflexivity|].
    eapply switched_same_volumes. exact Hsw.
  - cbn [TheLevel]. intros p a. destruct Hsw as [_ Hsw]. rewrite Hsw.
    destruct (deref (TheLevel game) p) as [[b|v|]|]; intros [= <-]; reflexivity.
Qed.

(** Once the game is over, a call of the engine changes nothing but the
    walking speed of the character. *)
Lemma run_game_over call game r game' events r' :
  game_over game -> run call game r = Some (game', events, r') ->
  TheLevel game' = TheLevel game /\
  MyGameMode game' = MyGameMode game /\
  ALesson_1Character.PowerLevel (MyCharacter game')
    = ALesson_1Character.PowerLevel (MyCharacter game) /\
  r' = r /\
  (events = [] \/ events = [SetCinematicMode true true true]).
Proof.
  intros (Hstate & Hpow & Hreg & Hoff). destruct call as [dt|dt|actors|this dt]; simpl.
  - unfold ALesson_1GameMode.Tick. rewrite Hpow.
    unfold ALesson_1GameMode.SetCurrentState.
    cbn [ALesson_1GameMode.CurrentState ALesson_1GameMode.HandleNewState
         ALesson_1GameMode.SpawnVolumeActors ALesson_1GameMode.DecayRate].
    rewrite for_each_volume_fixed.
    + intros [= <- <- <-]. cbn. repeat split; auto.
      destruct (MyGameMode game). cbn in *. congruence.
    + intros p Hp. apply Hreg in Hp as [v Hv]. exists v. split; [exact Hv|].
      apply DisableSpawning_disabled. exact (Hoff p _ Hv).
  - intros [= <- <- <-]. cbn. repeat split; auto.
  - unfold ALesson_1Character.CollectBatteries, ALesson_1GameMode.GetCurrentState.
    rewrite Hstate. cbn. intros [= <- <- <-]. cbn. repeat split; auto.
  - destruct (deref (TheLevel game) this) as [[b|v|]|] eqn:Hthis; try discriminate.
    unfold ASpawnVolume.Tick. pose proof (Hoff this _ Hthis) as Hv. simpl in Hv.
    rewrite Hv. cbn [negb]. intros [= <- <- <-]. cbn.
    rewrite store_store, store_unchanged by assumption. repeat split; auto.
Qed.

Lemma game_over_kept game game' :
  TheLevel game' = TheLevel game -> MyGameMode game' = MyGameMode game ->
  ALesson_1Character.PowerLevel (MyCharacter game')
    = ALesson_1Character.PowerLevel (MyCharacter game) ->
  game_over game -> game_over game'.
Proof.
  unfold game_over, all_registered, ALesson_1GameMode.has_power.
  intros -> -> ->. trivial.
Qed.

(** X15: game over is final.  After any sequence of ticks and battery
    sweeps the game is still over; the level, the game mode, the
    character's power level and the random generator are as they were, no
    actor has been spawned and no [PowerUp] raised: the only events are
    requests for the cinematic mode. *)
Theorem X15_game_over_is_final calls : forall game r game' events r',
  game_over game -> runs calls game r = Some (game', events, r') ->
  game_over game' /\
  TheLevel game' = TheLevel game /\
  MyGameMode game' = MyGameMode game /\
  ALesson_1Character.PowerLevel (MyCharacter game')
    = ALesson_1Character.PowerLevel (MyCharacter game) /\
  r' = r /\
  Forall (fun event => event = SetCinematicMode true true true) events.
Proof.
  induction calls as [|call rest IH]; simpl; intros game r game' events r' Hover H.
  - injection H as <- <- <-. split; [assumption|]. repeat split; auto.
  - destruct (run call game r) as [[[game1 events1] r1]|] eqn:Hrun; [|discriminate].
    destruct (runs rest game1 r1) as [[[game2 events2] r2]|] eqn:Hruns; [|discriminate].
    injection H as <- <- <-.
    destruct (run_game_over _ _ _ _ _ _ Hover Hrun) as (Hl & Hg & Hp & -> & Hev).
    pose proof (game_over_kept _ _ Hl Hg Hp Hover) as Hover1.
    destruct (IH _ _ _ _ _ Hover1 Hruns) as (Hover2 & Hl2 & Hg2 & Hp2 & -> & Hev2).
    split; [assumption|]. repeat split; try congruence.
    apply Forall_app. split; [|assumption].
    destruct Hev as [->| ->]; repeat constructor.
Qed.

Lemma same_volumes_grown level level' :
  length level' = length level -> same_volumes level level' -> grown level level'.
Proof.
  intros Hlen Hsame. split; [lia|]. intros p a' Hp. specialize (Hsame p).
  rewrite Hp in Hsame. destruct (deref level p) as [a|]; [|discriminate].
  cbn in Hsame. congruence.
Qed.

Lemma grown_trans level1 level2 level3 :
  grown level1 level2 -> grown level2 level3 -> grown level1 level3.
Proof.
  intros [Hlen1 H1] [Hlen2 H2]. split; [lia|]. intros p a3 Hp3.
  specialize (H2 p a3 Hp3). destruct (deref level2 p) as [a2|] eqn:Hp2.
  - specialize (H1 p a2 Hp2). destruct (deref level1 p); congruence.
  - destruct (deref level1 p) as [a1|] eqn:Hp1; [|assumption].
    exfalso. assert (Hv : deref level1 p <> None) by congruence.
    apply deref_valid in Hv.
    assert (Hv2 : (p < length level2)%nat) by lia.
    apply deref_valid in Hv2. congruence.
Qed.

Lemma all_registered_grown game game' :
  ALesson_1GameMode.SpawnVolumeActors (MyGameMode game')
    = ALesson_1GameMode.SpawnVolumeActors (MyGameMode game) ->
  grown (TheLevel game) (TheLevel game') ->
  all_registered game -> all_registered game'.
Proof.
  intros Hlist [Hlen Hgrown] Hreg p. rewrite Hlist, (Hreg p). split.
  - intros [v Hv]. assert (Hp : deref (TheLevel game) p <> None) by congruence.
    apply deref_valid in Hp.
    assert (Hp' : (p < length (TheLevel game'))%nat) by lia.
    apply deref_valid in Hp'.
    destruct (deref (TheLevel game') p) as [a'|] eqn:E; [|congruence].
    specialize (Hgrown p a' E). rewrite Hv in Hgrown.
    destruct a' as [b|v'|]; try discriminate. eauto.
  - intros [v' Hv']. specialize (Hgrown p _ Hv').
    destruct (deref (TheLevel game) p) as [[b|v|]|]; try discriminate. eauto.
Qed.

(** The actors spawned come after the others, and none is a spawn volume. *)
Lemma spawn_actors_appends events : forall level,
  exists extra,
    spawn_actors events level = level ++ extra /\
    Forall (fun a => is_volume a = false) extra /\
    (length extra <= length (filter is_spawn events))%nat.
Proof.
  induction events as [|event events IH]; intros level; simpl.
  - exists []. rewrite app_nil_r. repeat split; auto.
  - destruct event as [Class loc rot owner inst|bp|a b c]; cbn [is_spawn].
    + destruct (IH (add_spawned (SpawnActor_APickup level Class loc rot) level))
        as (extra & -> & Hall & Hlen).
      destruct (SpawnActor_APickup level Class loc rot) as [|b|]; cbn [add_spawned].
      * exists extra. cbn [length]. repeat split; auto.
      * exists (Battery b :: extra). rewrite <- app_assoc. cbn [length].
        repeat split; [constructor; auto | lia].
      * exists (OtherActor :: extra). rewrite <- app_assoc. cbn [length].
        repeat split; [constructor; auto | lia].
    + apply IH.
    + apply IH.
Qed.

Lemma run_grown call game r game' events r' :
  all_registered game -> run call game r = Some (game', events, r') ->
  ALesson_1GameMode.SpawnVolumeActors (MyGameMode game')
    = ALesson_1GameMode.SpawnVolumeActors (MyGameMode game) /\
  grown (TheLevel game) (TheLevel game') /\
  (length (TheLevel game') <= length (TheLevel game) + length (filter is_spawn events))%nat.
Proof.
  intros Hreg. destruct call as [dt|dt|actors|this dt]; simpl.
  - unfold ALesson_1GameMode.Tick.
    destruct (ALesson_1GameMode.has_power (MyCharacter game)).
    + intros [= <- <- <-]. cbn. split; [reflexivity|]. split; [|lia].
      apply same_volumes_grown; [reflexivity|]. intros p. reflexivity.
    + unfold ALesson_1GameMode.SetCurrentState.
      cbn [ALesson_1GameMode.CurrentState ALesson_1GameMode.HandleNewState
           ALesson_1GameMode.SpawnVolumeActors ALesson_1GameMode.DecayRate].
      destruct (ALesson_1GameMode.for_each_volume _ _ _) as [level'|] eqn:Hloop;
        [|discriminate].
      intros [= <- <- <-]. cbn.
      pose proof (for_each_volume_switched _ _ _ _ DisableSpawning_twice Hreg Hloop)
        as Hsw.
      split; [reflexivity|]. destruct (Hsw) as [Hlen _]. split; [|lia].
      apply same_volumes_grown; [assumption|].
      eapply switched_same_volumes. exact Hsw.
  - intros [= <- <- <-]. cbn. split; [reflexivity|]. split; [|lia].
    apply same_volumes_grown; [reflexivity|]. intros p. reflexivity.
  - destruct (ALesson_1Character.CollectBatteries _ _ _ _) as [[[level' ch'] evs]|]
      eqn:Hsweep; [|discriminate].
    intros [= <- <- <-]. cbn.
    apply CollectBatteries_frame in Hsweep as (Hlen & Hact & _).
    split; [reflexivity|]. split; [|lia].
    apply same_volumes_grown; [assumption|]. intros p.
    destruct (Hact p) as [->|(_ & _ & b & -> & _ & ->)]; reflexivity.
  - destruct (deref (TheLevel game) this) as [[b|v|]|] eqn:Hthis; try discriminate.
    destruct (ASpawnVolume.Tick this v dt r) as [[v' evs] r1].
    intros [= <- <- <-]. cbn [TheLevel MyGameMode].
    set (during := store (TheLevel game) this _).
    destruct (spawn_actors_appends evs during) as (extra & -> & Hextra & Hcount).
    assert (Hlen : length during = length (TheLevel game)) by apply store_length.
    assert (Hvalid : (this < length (TheLevel game))%nat).
    { apply deref_valid. congruence. }
    split; [reflexivity|]. split; [split|].
    + rewrite store_length, length_app. lia.
    + intros p a' Hp. destruct (Nat.eq_dec this p) as [<-|Hne].
      * rewrite Hthis. erewrite deref_store_same in Hp.
        -- injection Hp as <-. reflexivity.
        -- unfold deref. rewrite nth_error_app1 by lia.
           unfold during. eapply deref_store_same. exact Hthis.
      * rewrite deref_store_other in Hp by assumption. unfold deref in Hp.
        destruct (Nat.lt_ge_cases p (length during)) as [Hlt|Hge].
        -- rewrite nth_error_app1 in Hp by assumption.
           unfold during in Hp. fold (deref (store (TheLevel game) this
             (SpawnVolume (ASpawnVolume.set_timer
                (ASpawnVolume.SpawnTime v + dt) (ASpawnVolume.SpawnDelay v) v))) p) in Hp.
           rewrite deref_store_other in Hp by assumption. rewrite Hp. reflexivity.
        -- rewrite nth_error_app2 in Hp by assumption.
           apply nth_error_In in Hp.
           assert (Hnone : deref (TheLevel game) p = None).
           { destruct (deref (TheLevel game) p) eqn:E; [|reflexivity].
             assert (Hp' : deref (TheLevel game) p <> None) by congruence.
             apply deref_valid in Hp'. lia. }
           rewrite Hnone. exact (proj1 (Forall_forall _ _) Hextra a' Hp).
    + rewrite store_length, length_app. lia.
Qed.

(** X16: the ticks and the battery sweeps keep the game mode's list in step
    with the level, spawns included: if the game mode remembers exactly the
    spawn volumes of the level, it still does after any sequence of such
    calls.  The actors that were there are still there, a spawn volume is
    still one and no other actor has become one; each [SpawnActor] brings
    at most one new actor, and none of the new actors is a spawn volume. *)
Theorem X16_registration_is_kept calls : forall game r game' events r',
  all_registered game -> runs calls game r = Some (game', events, r') ->
  all_registered game' /\
  grown (TheLevel game) (TheLevel game') /\
  (length (TheLevel game') <= length (TheLevel game) + length (filter is_spawn events))%nat.
Proof.
  induction calls as [|call rest IH]; simpl; intros game r game' events r' Hreg H.
  - injection H as <- <- <-. split; [assumption|]. split; [|cbn; lia].
    apply same_volumes_grown; [reflexivity|]. intros p. reflexivity.
  - destruct (run call game r) as [[[game1 events1] r1]|] eqn:Hrun; [|discriminate].
    destruct (runs rest game1 r1) as [[[game2 events2] r2]|] eqn:Hruns; [|discriminate].
    injection H as <- <- <-.
    destruct (run_grown _ _ _ _ _ _ Hreg Hrun) as (Hlist & Hgrown & Hlen).
    pose proof (all_registered_grown _ _ Hlist Hgrown Hreg) as Hreg1.
    destruct (IH _ _ _ _ _ Hreg1 Hruns) as (Hreg2 & Hgrown2 & Hlen2).
    split; [assumption|]. split; [eapply grown_trans; eassumption|].
    rewrite filter_app, length_app. lia.
Qed.

(** X17: a tick of a spawn volume changes nothing of the volume but its
    timer and its delay, and spawns at most one actor; it spawns only if the
    volume is enabled, has a class to spawn and a world, and its timer has
    passed the delay, and the actor is of that class and owned by the
    volume.  A disabled volume is left as it is, its timer included, and
    draws no random number. *)
Theorem X17_spawn_volume_tick this v DeltaTime r v' events r' :
  ASpawnVolume.Tick this v DeltaTime r = (v', events, r') ->
  ASpawnVolume.set_timer (ASpawnVolume.SpawnTime v') (ASpawnVolume.SpawnDelay v') v = v' /\
  (events = [] \/
   exists Class SpawnLocation SpawnRotation,
     events = [SpawnActor Class SpawnLocation SpawnRotation this
                 (ASpawnVolume.Instigator v)] /\
     ASpawnVolume.WhatToSpawn v = Some Class /\
     ASpawnVolume.HasWorld v = true /\
     ASpawnVolume.bSpawningEnabled v = true /\
     (ASpawnVolume.SpawnDelay v <? ASpawnVolume.SpawnTime v + DeltaTime) = true) /\
  (ASpawnVolume.bSpawningEnabled v = false -> v' = v /\ r' = r).
Proof.
  unfold ASpawnVolume.Tick.
  destruct (ASpawnVolume.bSpawningEnabled v) eqn:Hon; cbn [negb].
  2:{ intros [= <- <- <-]. split; [destruct v; reflexivity|]. auto. }
  destruct (ASpawnVolume.SpawnDelay v <? ASpawnVolume.SpawnTime v + DeltaTime) eqn:Hlate.
  2:{ intros [= <- <- <-]. split; [reflexivity|]. split; [auto|discriminate]. }
  unfold ASpawnVolume.SpawnPickup, ASpawnVolume.GetRandomPointInVolume,
    ASpawnVolume.GetRandomSpawnDelay.
  destruct (ASpawnVolume.WhatToSpawn v) as [Class|] eqn:Hwhat.
  2:{ destruct (FRandRange _ _ r) as [d r1].
      intros [= <- <- <-]. split; [reflexivity|]. split; [auto|discriminate]. }
  destruct (ASpawnVolume.HasWorld v) eqn:Hworld; cbn [negb].
  2:{ destruct (FRandRange _ _ r) as [d r1].
      intros [= <- <- <-]. split; [reflexivity|]. split; [auto|discriminate]. }
  repeat match goal with
         | |- context [FRandRange ?a ?b ?g] => destruct (FRandRange a b g) as [? ?]
         | |- context [FRand ?g] => destruct (FRand g) as [? ?]
         end.
  intros [= <- <- <-]. split; [reflexivity|]. split; [|discriminate].
  right. eexists _, _, _. repeat split.
Qed.

(** X18: when the game is over, a further tick of the game mode leaves the
    game exactly as it is and asks for the cinematic mode once more. *)
Theorem X18_game_mode_tick_when_over game DeltaSeconds r :
  game_over game ->
  run (GameMode_Tick DeltaSeconds) game r
    = Some (game, [SetCinematicMode true true true], r).
Proof.
  intros (Hstate & Hpow & Hreg & Hoff). simpl.
  unfold ALesson_1GameMode.Tick. rewrite Hpow.
  unfold ALesson_1GameMode.SetCurrentState.
  cbn [ALesson_1GameMode.CurrentState ALesson_1GameMode.HandleNewState
       ALesson_1GameMode.SpawnVolumeActors ALesson_1GameMode.DecayRate].
  rewrite for_each_volume_fixed.
  - destruct game as [level ch [state rate volumes]]. cbn in *. subst state.
    reflexivity.
  - intros p Hp. apply Hreg in Hp as [v Hv]. exists v. split; [exact Hv|].
    apply DisableSpawning_disabled. exact (Hoff p _ Hv).
Qed.

End WithEngine.

(** ** Runs of the game in the small level *)

Lemma all_registered_found level ch g :
  ALesson_1GameMode.SpawnVolumeActors g = GetAllSpawnVolumes level 0%nat ->
  all_registered (mkGame level ch g).
Proof.
  intros E p. cbn. rewrite E, GetAllSpawnVolumes_spec, Nat.sub_0_r.
  split; [intros [_ H]; exact H|]. intros H. split; [lia|exact H].
Qed.

Lemma none_spawning level :
  Forall (fun a => spawning a = false) level ->
  forall p a, deref level p = Some a -> spawning a = false.
Proof.
  intros Hall p a Hp. apply nth_error_In in Hp.
  exact (proj1 (Forall_forall _ _) Hall a Hp).
Qed.

Lemma test_game_registered : all_registered test_game.
Proof. apply all_registered_found. reflexivity. Qed.

Lemma exhausted_game_registered : all_registered exhausted_game.
Proof. apply all_registered_found. reflexivity. Qed.

Lemma finished_game_over : game_over finished_game.
Proof.
  split; [reflexivity|]. split; [reflexivity|]. split.
  - apply all_registered_found. reflexivity.
  - apply none_spawning. repeat constructor.
Qed.

Lemma X10_witness :
  ALesson_1Character.CollectBatteries EPlaying [0; 3; 0]%nat swept_level
    (test_character 2300)
  = Some (swept_level, test_character 2300, []).
Proof.
  apply (X10_second_sweep_collects_nothing EPlaying [0; 3; 0]%nat test_level
           (test_character 2000) swept_level (test_character 2300)
           [PowerUp (f32_of_Z 300)]).
  reflexivity.
Defined.

Lemma X11_witness :
  length swept_level = length test_level /\
  (forall q,
     deref swept_level q = deref test_level q \/
     (EPlaying <> EGameOver /\ In q [0; 3; 0]%nat /\
      exists b, deref test_level q = Some (Battery b) /\
                collectable (Battery b) = true /\
                deref swept_level q = Some (Battery (spent b)))) /\
  ALesson_1Character.SpeedFactor (test_character 2300)
    = ALesson_1Character.SpeedFactor (test_character 2000) /\
  ALesson_1Character.BaseSpeed (test_character 2300)
    = ALesson_1Character.BaseSpeed (test_character 2000) /\
  ALesson_1Character.MaxWalkSpeed (test_character 2300)
    = ALesson_1Character.MaxWalkSpeed (test_character 2000) /\
  (EPlaying = EGameOver ->
   swept_level = test_level /\ test_character 2300 = test_character 2000 /\
   [PowerUp (f32_of_Z 300)] = []) /\
  (([PowerUp (f32_of_Z 300)] = [] /\ test_character 2300 = test_character 2000) \/
   exists BatteryPower,
     [PowerUp (f32_of_Z 300)] = [PowerUp BatteryPower] /\
     (f32_of_Z 0 <? BatteryPower) = true /\
     test_character 2300
       = ALesson_1Character.set_PowerLevel
           (ALesson_1Character.PowerLevel (test_character 2000) + BatteryPower)
           (test_character 2000)).
Proof.
  apply (X11_sweep_frame EPlaying [0; 3; 0]%nat test_level (test_character 2000)
           swept_level (test_character 2300) [PowerUp (f32_of_Z 300)]).
  reflexivity.
Defined.

Lemma X12_witness :
  exists a, deref swept_level 3%nat = Some a /\ collectable a = false.
Proof.
  apply (X12_sweep_leaves_nothing_collectable EPlaying [0; 3; 0]%nat test_level
           (test_character 2000) swept_level (test_character 2300)
           [PowerUp (f32_of_Z 300)]).
  - discriminate.
  - reflexivity.
  - right. left. reflexivity.
Defined.


Lemma X14_witness :
  exists game',
    run (engine := TestEngine) (GameMode_Tick (f32_of_Z 1)) exhausted_game 0%nat
      = Some (game', [SetCinematicMode true true true], 0%nat) /\
    game_over game' /\
    MyCharacter game' = MyCharacter exhausted_game /\
    switched ASpawnVolume.DisableSpawning (TheLevel exhausted_game) (TheLevel game').
Proof.
  apply (X14_out_of_power (engine := TestEngine) exhausted_game (f32_of_Z 1) 0%nat).
  - exact exhausted_game_registered.
  - reflexivity.
Defined.

Lemma X15_witness :
  game_over (mkGame quiet_level (ALesson_1Character.Tick (test_character 0) (f32_of_Z 1))
               (test_game_mode EGameOver [2; 4]%nat)) /\
  quiet_level = TheLevel finished_game /\
  test_game_mode EGameOver [2; 4]%nat = MyGameMode finished_game /\
  f32_of_Z 0 = ALesson_1Character.PowerLevel (MyCharacter finished_game) /\
  0%nat = 0%nat /\
  Forall (fun event => event = SetCinematicMode true true true)
    [SetCinematicMode true true true].
Proof.
  exact (X15_game_over_is_final (engine := TestEngine)
           [SpawnVolume_Tick 4%nat (f32_of_Z 5); Character_CollectBatteries [0; 3]%nat;
            GameMode_Tick (f32_of_Z 1); Character_Tick (f32_of_Z 1)]
           finished_game 0%nat _ _ _ finished_game_over eq_refl).
Defined.

Lemma X16_witness :
  all_registered (mkGame spawned_level (test_character 2300)
                    (test_game_mode EPlaying [2; 4]%nat)) /\
  grown test_level spawned_level /\
  (length spawned_level <= length test_level + 1)%nat.
Proof.
  exact (X16_registration_is_kept (engine := TestEngine) (world := TestSpawner)
           [Character_CollectBatteries [0; 3]%nat; SpawnVolume_Tick 4%nat (f32_of_Z 2)]
           test_game 0%nat _ _ _ test_game_registered eq_refl).
Defined.

Lemma X17_witness :
  exists v' events r',
    ASpawnVolume.Tick (engine := TestEngine) 4%nat (test_volume true) (f32_of_Z 2) 0%nat
      = (v', events, r') /\
    ASpawnVolume.set_timer (ASpawnVolume.SpawnTime v') (ASpawnVolume.SpawnDelay v')
      (test_volume true) = v' /\
    length events = 1%nat.
Proof.
  eexists _, _, _. split; [reflexivity|]. split; [|reflexivity].
  refine (proj1 (X17_spawn_volume_tick (engine := TestEngine) 4%nat (test_volume true)
                   (f32_of_Z 2) 0%nat _ _ _ eq_refl)).
Defined.

Lemma X18_witness :
  run (engine := TestEngine) (GameMode_Tick (f32_of_Z 1)) finished_game 0%nat
    = Some (finished_game, [SetCinematicMode true true true], 0%nat).
Proof.
  apply (X18_game_mode_tick_when_over (engine := TestEngine) finished_game (f32_of_Z 1)
           0%nat).
  exact finished_game_over.
Defined.

End Lesson_1_Facts.
